(** * name2date: file modification dates from file names

    A shallow embedding of [main.py]: the two filename patterns and the
    datetime they build ([parse_filename]), the metadata update
    ([update_file_modification_time]), the directory scan
    ([process_directory]) and the command-line entry point ([main]),
    followed by the properties of the specification that were settled
    against them. *)

From Stdlib Require Import ZArith List String Ascii Bool Lia Arith.
From Stdlib Require Import DecimalString.
From Stdlib Require Import Permutation.
Import ListNotations.

Local Open Scope string_scope.
Local Open Scope Z_scope.

Set Warnings "-register-all".

(* ================================================================== *)
(** * Results and exceptions *)
(* ================================================================== *)

(** The two exceptions the program can meet: [ValueError] (raised by [int],
    by tuple unpacking and by the [datetime] constructor) and [OSError]
    (raised by [os.utime]; it carries the text of the error). *)
Inductive exn : Type :=
| ValueError
| OSError (msg : string).

Inductive result (A : Type) : Type :=
| Ok (a : A)
| Raise (e : exn).
Arguments Ok {A} a.
Arguments Raise {A} e.

Definition rbind {A B} (r : result A) (k : A -> result B) : result B :=
  match r with
  | Ok a => k a
  | Raise e => Raise e
  end.

Notation "'let?' x ':=' r 'in' k" := (rbind r (fun x => k))
  (at level 10, x pattern, r at level 100, k at level 200).

Fixpoint rmap {A B} (f : A -> result B) (xs : list A) : result (list B) :=
  match xs with
  | [] => Ok []
  | x :: xs' =>
      let? y := f x in
      let? ys := rmap f xs' in
      Ok (y :: ys)
  end.

(* ================================================================== *)
(** * Strings and the two regular expressions *)
(* ================================================================== *)

(** File names are strings over the 8-bit alphabet of [ascii].  On that
    alphabet the class [\d] of Python's [re] is exactly ['0'..'9']. *)
Definition is_digit (c : ascii) : bool :=
  ((48 <=? nat_of_ascii c) && (nat_of_ascii c <=? 57))%nat.

Definition digit_value (c : ascii) : Z := Z.of_nat (nat_of_ascii c) - 48.

(** [int(s)] on a string of decimal digits, the only strings the program
    converts; the empty string and any other character raise [ValueError]. *)
Fixpoint int_from (acc : Z) (s : string) : result Z :=
  match s with
  | EmptyString => Ok acc
  | String c s' =>
      if is_digit c then int_from (10 * acc + digit_value c) s'
      else Raise ValueError
  end.

Definition int (s : string) : result Z :=
  match s with
  | EmptyString => Raise ValueError
  | _ => int_from 0 s
  end.

(** The patterns of the program are sequences of literal text and of
    capturing groups [(\d{n})]. *)
Inductive re_piece : Type :=
| Lit (text : string)
| Digits (n : nat).

Definition regex := list re_piece.

(** [r'PXL_(\d{4})(\d{2})(\d{2})_(\d{2})(\d{2})(\d{2})(\d{3})'] *)
Definition pxl_pattern : regex :=
  [Lit "PXL_"; Digits 4; Digits 2; Digits 2; Lit "_";
   Digits 2; Digits 2; Digits 2; Digits 3].

(** [r'lv_0_(\d{4})(\d{2})(\d{2})(\d{2})(\d{2})(\d{2})'] *)
Definition lv_pattern : regex :=
  [Lit "lv_0_"; Digits 4; Digits 2; Digits 2; Digits 2; Digits 2; Digits 2].

(** The rest of [s] after the literal [text], when [s] starts with it. *)
Fixpoint eat_literal (text s : string) : option string :=
  match text with
  | EmptyString => Some s
  | String c text' =>
      match s with
      | String d s' => if Ascii.eqb c d then eat_literal text' s' else None
      | EmptyString => None
      end
  end.

(** The [n] leading digits of [s] and what follows them. *)
Fixpoint eat_digits (n : nat) (s : string) : option (string * string) :=
  match n with
  | O => Some (EmptyString, s)
  | S n' =>
      match s with
      | String d s' =>
          if is_digit d then
            match eat_digits n' s' with
            | Some (g, rest) => Some (String d g, rest)
            | None => None
            end
          else None
      | EmptyString => None
      end
  end.

(** [re.match(pat, s)]: the groups captured when [pat] matches at the start
    of [s]. *)
Fixpoint re_match (pat : regex) (s : string) : option (list string) :=
  match pat with
  | [] => Some []
  | Lit text :: pat' =>
      match eat_literal text s with
      | Some rest => re_match pat' rest
      | None => None
      end
  | Digits n :: pat' =>
      match eat_digits n s with
      | Some (g, rest) =>
          match re_match pat' rest with
          | Some gs => Some (g :: gs)
          | None => None
          end
      | None => None
      end
  end.

(** [re.search(pat, s)]: the groups of the leftmost position of [s] at which
    [pat] matches. *)
Fixpoint re_search (pat : regex) (s : string) : option (list string) :=
  match re_match pat s with
  | Some gs => Some gs
  | None =>
      match s with
      | EmptyString => None
      | String _ s' => re_search pat s'
      end
  end.

(* ================================================================== *)
(** * datetime *)
(* ================================================================== *)

Inductive timezone : Type := UTC.

Record datetime : Type := mk_datetime {
  year : Z;
  month : Z;
  day : Z;
  hour : Z;
  minute : Z;
  second : Z;
  microsecond : Z;
  tzinfo : timezone
}.

Definition MINYEAR : Z := 1.
Definition MAXYEAR : Z := 9999.

Definition is_leap (y : Z) : bool :=
  (y mod 4 =? 0) && (negb (y mod 100 =? 0) || (y mod 400 =? 0)).

Definition DAYS_IN_MONTH (m : Z) : Z :=
  match m with
  | 1 => 31 | 2 => 28 | 3 => 31 | 4 => 30 | 5 => 31 | 6 => 30
  | 7 => 31 | 8 => 31 | 9 => 30 | 10 => 31 | 11 => 30 | 12 => 31
  | _ => -1
  end.

Definition DAYS_BEFORE_MONTH (m : Z) : Z :=
  match m with
  | 1 => 0 | 2 => 31 | 3 => 59 | 4 => 90 | 5 => 120 | 6 => 151
  | 7 => 181 | 8 => 212 | 9 => 243 | 10 => 273 | 11 => 304 | 12 => 334
  | _ => -1
  end.

Definition days_in_month (y m : Z) : Z :=
  if (m =? 2) && is_leap y then 29 else DAYS_IN_MONTH m.

Definition check_date_fields (y m d : Z) : result unit :=
  if negb ((MINYEAR <=? y) && (y <=? MAXYEAR)) then Raise ValueError
  else if negb ((1 <=? m) && (m <=? 12)) then Raise ValueError
  else if negb ((1 <=? d) && (d <=? days_in_month y m)) then Raise ValueError
  else Ok tt.

Definition check_time_fields (h mi s us : Z) : result unit :=
  if negb ((0 <=? h) && (h <=? 23)) then Raise ValueError
  else if negb ((0 <=? mi) && (mi <=? 59)) then Raise ValueError
  else if negb ((0 <=? s) && (s <=? 59)) then Raise ValueError
  else if negb ((0 <=? us) && (us <=? 999999)) then Raise ValueError
  else Ok tt.

(** [datetime(year, month, day, hour, minute, second, microsecond,
    tzinfo=tz)]: the fields are range-checked, the date first. *)
Definition datetime_new (y m d h mi s us : Z) (tz : timezone)
  : result datetime :=
  let? _ := check_date_fields y m d in
  let? _ := check_time_fields h mi s us in
  Ok (mk_datetime y m d h mi s us tz).

Definition days_before_year (y : Z) : Z :=
  let y1 := y - 1 in
  y1 * 365 + y1 / 4 - y1 / 100 + y1 / 400.

Definition days_before_month (y m : Z) : Z :=
  DAYS_BEFORE_MONTH m + (if (2 <? m) && is_leap y then 1 else 0).

(** [date.toordinal()]: 1 for 0001-01-01. *)
Definition toordinal (dt : datetime) : Z :=
  days_before_year (year dt) + days_before_month (year dt) (month dt) + day dt.

(** The ordinal of 1970-01-01. *)
Definition EPOCH_ORDINAL : Z := 719163.

(** [dt.timestamp()] of an aware datetime is
    [(dt - EPOCH).total_seconds()], the quotient of a whole number of
    microseconds by [10**6].  Times are kept as that whole number of
    microseconds since the epoch. *)
Definition timestamp (dt : datetime) : Z :=
  ((toordinal dt - EPOCH_ORDINAL) * 86400
   + (hour dt * 3600 + minute dt * 60 + second dt)) * 1000000
  + microsecond dt.

(* ================================================================== *)
(** * parse_filename *)
(* ================================================================== *)

Definition parse_filename (filename : string) : result (option datetime) :=
  match re_search pxl_pattern filename with
  | Some groups =>
      let? fields := rmap int groups in
      match fields with
      | [y; m; d; h; mi; s; millisecond] =>
          let? dt := datetime_new y m d h mi s (millisecond * 1000) UTC in
          Ok (Some dt)
      | _ => Raise ValueError
      end
  | None =>
      match re_search lv_pattern filename with
      | Some groups =>
          let? fields := rmap int groups in
          match fields with
          | [y; m; d; h; mi; s] =>
              let? dt := datetime_new y m d h mi s 0 UTC in
              Ok (Some dt)
          | _ => Raise ValueError
          end
      | None => Ok None
      end
  end.

(* ================================================================== *)
(** * os.path *)
(* ================================================================== *)

Definition is_sep (c : ascii) : bool := Ascii.eqb c "/".

Definition startswith_sep (s : string) : bool :=
  match s with
  | String c _ => is_sep c
  | EmptyString => false
  end.

Fixpoint endswith_sep (s : string) : bool :=
  match s with
  | EmptyString => false
  | String c EmptyString => is_sep c
  | String _ s' => endswith_sep s'
  end.

(** [os.path.join(a, p)] (posixpath). *)
Definition os_path_join (a p : string) : string :=
  if startswith_sep p then p
  else if (a =? "")%string || endswith_sep a then a ++ p
  else a ++ "/" ++ p.

(** [p[:i], p[i:]] for [i = p.rfind('/') + 1]. *)
Fixpoint rsplit_sep (p : string) : string * string :=
  match p with
  | EmptyString => (EmptyString, EmptyString)
  | String c p' =>
      let '(head, tail) := rsplit_sep p' in
      match head with
      | EmptyString =>
          if is_sep c then (String c EmptyString, tail)
          else (EmptyString, String c tail)
      | _ => (String c head, tail)
      end
  end.

Fixpoint all_sep (s : string) : bool :=
  match s with
  | EmptyString => true
  | String c s' => is_sep c && all_sep s'
  end.

(** [s.rstrip('/')] *)
Fixpoint rstrip_sep (s : string) : string :=
  match s with
  | EmptyString => EmptyString
  | String c s' =>
      match rstrip_sep s' with
      | EmptyString => if is_sep c then EmptyString else String c EmptyString
      | r => String c r
      end
  end.

(** [os.path.split(p)] *)
Definition os_path_split (p : string) : string * string :=
  let '(head, tail) := rsplit_sep p in
  (if negb (head =? "")%string && negb (all_sep head) then rstrip_sep head
   else head, tail).

(** [os.path.basename(p)] *)
Definition os_path_basename (p : string) : string := snd (rsplit_sep p).

(* ================================================================== *)
(** * The file system, fnmatch and glob *)
(* ================================================================== *)

(** What the program reads and writes of a file: its two times, in
    microseconds since the epoch, and whether [os.utime] is refused on it
    ([Some text]: it raises [OSError] with that text). *)
Record attrs : Type := mk_attrs {
  atime : Z;
  mtime : Z;
  utime_error : option string
}.

Inductive node : Type :=
| File (a : attrs)
| Dir (a : attrs) (entries : list (string * node)).

(** The program touches the file system only through the one path it is
    given.  [target] is what that path denotes ([None]: nothing; for the
    empty path, the current directory, which is where [glob] looks then);
    the entries of a directory are in the order [os.scandir] yields them.
    [stdout] is the text printed so far, one element per [print]. *)
Record world : Type := mk_world {
  target : option node;
  stdout : list string
}.

Definition node_attrs (n : node) : attrs :=
  match n with
  | File a => a
  | Dir a _ => a
  end.

Definition entries_of (w : world) : list (string * node) :=
  match target w with
  | Some (Dir _ es) => es
  | _ => []
  end.

(** [os.path.isdir(directory)] *)
Definition os_path_isdir (directory : string) (w : world) : bool :=
  negb (directory =? "")%string &&
  match target w with
  | Some (Dir _ _) => true
  | _ => false
  end.

(** The names [glob] reads from the directory; a failing [os.scandir]
    yields none. *)
Definition listdir (w : world) : list string := map fst (entries_of w).

(** [fnmatch] for patterns made of ordinary characters, [?] and [*]
    (character classes [[...]] do not occur in the program's patterns). *)
Fixpoint fnmatch (pat : string) : string -> bool :=
  match pat with
  | EmptyString => fun name =>
      match name with
      | EmptyString => true
      | _ => false
      end
  | String p pat' =>
      if Ascii.eqb p "*" then
        fix star (name : string) : bool :=
          fnmatch pat' name ||
          match name with
          | EmptyString => false
          | String _ name' => star name'
          end
      else if Ascii.eqb p "?" then fun name =>
        match name with
        | String _ name' => fnmatch pat' name'
        | EmptyString => false
        end
      else fun name =>
        match name with
        | String c name' => Ascii.eqb p c && fnmatch pat' name'
        | EmptyString => false
        end
  end.

(** [glob._ishidden] *)
Definition ishidden (name : string) : bool :=
  match name with
  | String c _ => Ascii.eqb c "."
  | EmptyString => false
  end.

(** [glob.glob(pathname)] for a pathname whose last component is a pattern
    and whose directory part is literal (free of [*], [?] and [[]): the
    names of the directory that match the pattern, hidden names left out
    unless the pattern is hidden itself, each joined to the directory
    part. *)
Definition glob_glob (pathname : string) (w : world) : list string :=
  let '(dirname, basename) := os_path_split pathname in
  let names := listdir w in
  let names :=
    if ishidden basename then names
    else filter (fun x => negb (ishidden x)) names in
  let hits := filter (fnmatch basename) names in
  match dirname with
  | EmptyString => hits
  | _ => map (os_path_join dirname) hits
  end.

(** The pair of [os.utime] is [(atime, mtime)]. *)
Definition set_times (times : Z * Z) (a : attrs) : attrs :=
  mk_attrs (fst times) (snd times) (utime_error a).

Definition touch (t : Z * Z) (n : node) : node :=
  match n with
  | File a => File (set_times t a)
  | Dir a es => Dir (set_times t a) es
  end.

Definition ENOENT : string := "[Errno 2] No such file or directory".

Fixpoint utime_entries (name : string) (t : Z * Z)
    (es : list (string * node))
  : result (list (string * node)) :=
  match es with
  | [] => Raise (OSError ENOENT)
  | (n, nd) :: es' =>
      if (n =? name)%string then
        match utime_error (node_attrs nd) with
        | None => Ok ((n, touch t nd) :: es')
        | Some msg => Raise (OSError msg)
        end
      else
        let? es'' := utime_entries name t es' in
        Ok ((n, nd) :: es'')
  end.

(** [os.utime(filepath, t)] for a path that [glob] returned: the entry of
    the directory with the path's last component gets the two times of the
    pair [t], or [OSError] is raised. *)
Definition os_utime (filepath : string) (t : Z * Z) (w : world)
  : result world :=
  match target w with
  | Some (Dir a es) =>
      let? es' := utime_entries (os_path_basename filepath) t es in
      Ok (mk_world (Some (Dir a es')) (stdout w))
  | _ => Raise (OSError ENOENT)
  end.

(* ================================================================== *)
(** * The program: state, printing and the three functions *)
(* ================================================================== *)

(** A computation runs in a world and leaves one, also when it raises. *)
Definition M (A : Type) : Type := world -> result A * world.

Definition ret {A} (a : A) : M A := fun w => (Ok a, w).

Definition bind {A B} (m : M A) (k : A -> M B) : M B :=
  fun w =>
    match m w with
    | (Ok a, w') => k a w'
    | (Raise e, w') => (Raise e, w')
    end.

Notation "x <- m ;; k" := (bind m (fun x => k))
  (at level 61, m at next level, right associativity).
Notation "m ;; k" := (bind m (fun _ => k))
  (at level 61, right associativity).

Definition lift {A} (r : result A) : M A := fun w => (r, w).

Definition print (line : string) : M unit :=
  fun w => (Ok tt, mk_world (target w) (stdout w ++ [line])%list).

Definition when (b : bool) (m : M unit) : M unit := if b then m else ret tt.

Fixpoint for_each {X A} (xs : list X) (body : X -> A -> M A) (acc : A)
  : M A :=
  match xs with
  | [] => ret acc
  | x :: xs' => acc' <- body x acc ;; for_each xs' body acc'
  end.

Definition str_exn (e : exn) : string :=
  match e with
  | ValueError => EmptyString
  | OSError msg => msg
  end.

Definition str_nat (n : nat) : string :=
  NilZero.string_of_uint (Nat.to_uint n).

Fixpoint zfill_nat (pad : nat) (s : string) : string :=
  match pad with
  | O => s
  | S pad' => String "0" (zfill_nat pad' s)
  end.

(** [s.zfill(width)] for a string of digits. *)
Definition zfill (width : nat) (s : string) : string :=
  zfill_nat (width - String.length s) s.

Definition fmt (width : nat) (z : Z) : string :=
  zfill width (str_nat (Z.to_nat z)).

(** [dt.strftime('%Y-%m-%d %H:%M:%S %Z')]; the year is written with four
    digits (the C library may leave out leading zeros before year 1000). *)
Definition strftime (dt : datetime) : string :=
  fmt 4 (year dt) ++ "-" ++ fmt 2 (month dt) ++ "-" ++ fmt 2 (day dt) ++ " "
  ++ fmt 2 (hour dt) ++ ":" ++ fmt 2 (minute dt) ++ ":" ++ fmt 2 (second dt)
  ++ " UTC".

Definition update_file_modification_time (filepath : string) (dt : datetime)
  : M bool :=
  fun w =>
    let timestamp := timestamp dt in
    match os_utime filepath (timestamp, timestamp) w with
    | Ok w' => (Ok true, w')
    | Raise e =>
        (print ("Error updating " ++ filepath ++ ": " ++ str_exn e) ;;
         ret false) w
    end.

Definition file_extensions : list string :=
  ["*.mp4"; "*.mov"; "*.avi"; "*.mkv"; "*.jpg"].

(** The body of the inner loop of [process_directory]; the two counters are
    its accumulator. *)
Definition process_file (verbose : Z) (filepath : string)
    (counts : nat * nat) : M (nat * nat) :=
  let '(success_count, failure_count) := counts in
  let filename := os_path_basename filepath in
  when (2 <=? verbose) (print ("Processing " ++ filename ++ "...")) ;;
  dt <- lift (parse_filename filename) ;;
  match dt with
  | Some dt =>
      ok <- update_file_modification_time filepath dt ;;
      if ok : bool then
        when (2 <=? verbose)
          (print ("  Updated: " ++ filename ++ " -> " ++ strftime dt)) ;;
        ret (S success_count, failure_count)
      else ret (success_count, S failure_count)
  | None =>
      when (1 <=? verbose)
        (print ("  Skipped: " ++ filename
                ++ " (doesn't match expected pattern)")) ;;
      ret (success_count, S failure_count)
  end.

Definition process_directory (directory : string) (verbose : Z)
  : M (nat * nat) :=
  for_each file_extensions
    (fun ext counts w =>
       for_each (glob_glob (os_path_join directory ext) w)
         (process_file verbose) counts w)
    (0%nat, 0%nat).

Definition newline : string := String (ascii_of_nat 10) EmptyString.

Definition main (directory : string) (verbose : Z) : M unit :=
  fun w =>
    if negb (os_path_isdir directory w) then
      print ("Error: '" ++ directory ++ "' is not a valid directory") w
    else
      (print ("Processing directory: " ++ directory) ;;
       print ("Expected timezone in the filenames: UTC" ++ newline) ;;
       counts <- process_directory directory verbose ;;
       print (newline ++ "Summary:") ;;
       print ("  Successfully processed: " ++ str_nat (fst counts) ++ " files") ;;
       print ("  Failed or skipped: " ++ str_nat (snd counts) ++ " files")) w.


(* ================================================================== *)
(** * Vocabulary of the specification *)
(* ================================================================== *)

Fixpoint all_digits (s : string) : bool :=
  match s with
  | EmptyString => true
  | String c s' => is_digit c && all_digits s'
  end.

(** A field of a token: exactly [n] decimal digits. *)
Definition digits (n : nat) (s : string) : bool :=
  (String.length s =? n)%nat && all_digits s.

(** The number a string of digits denotes. *)
Fixpoint decimal_from (acc : Z) (s : string) : Z :=
  match s with
  | EmptyString => acc
  | String c s' => decimal_from (10 * acc + digit_value c) s'
  end.

Definition decimal (s : string) : Z := decimal_from 0 s.

(** [PXL_YYYYMMDD_HHMMSSmmm] and [lv_0_YYYYMMDDHHMMSS]. *)
Definition pxl_token (Y Mo D h mi s ms : string) : string :=
  "PXL_" ++ Y ++ Mo ++ D ++ "_" ++ h ++ mi ++ s ++ ms.

Definition lv_token (Y Mo D h mi s : string) : string :=
  "lv_0_" ++ Y ++ Mo ++ D ++ h ++ mi ++ s.

Definition leap_year (y : Z) : bool :=
  ((y mod 4 =? 0) && negb (y mod 100 =? 0)) || (y mod 400 =? 0).

Definition month_length (y m : Z) : Z :=
  match m with
  | 2 => if leap_year y then 29 else 28
  | 4 | 6 | 9 | 11 => 30
  | _ => 31
  end.

(** The calendar ranges: a year the datetime type has, month 1-12, a day of
    that month, hour 0-23, minute and second 0-59. *)
Definition valid_calendar (y m d h mi s : Z) : Prop :=
  1 <= y <= 9999 /\ 1 <= m <= 12 /\ 1 <= d <= month_length y m /\
  0 <= h <= 23 /\ 0 <= mi <= 59 /\ 0 <= s <= 59.

(** No match of [pat] in [pre ++ rest] starts inside [pre]: an occurrence at
    the start of [rest] is the leftmost one. *)
Fixpoint no_earlier_match (pat : regex) (pre rest : string) : bool :=
  match pre with
  | EmptyString => true
  | String _ pre' =>
      match re_match pat (pre ++ rest) with
      | Some _ => false
      | None => no_earlier_match pat pre' rest
      end
  end.

Fixpoint pattern_length (pat : regex) : nat :=
  match pat with
  | [] => O
  | Lit text :: pat' => (String.length text + pattern_length pat')%nat
  | Digits n :: pat' => (n + pattern_length pat')%nat
  end.

(** A bare token of a pattern: the pattern matches it from end to end. *)
Definition is_token (pat : regex) (tok : string) : bool :=
  (String.length tok =? pattern_length pat)%nat &&
  match re_match pat tok with
  | Some _ => true
  | None => false
  end.

Definition NotFound : result (option datetime) := Ok None.

(** The digit fields of a token of either format. *)
Inductive token_fields : Type :=
| PxlFields (Y Mo D h mi s ms : string)
| LvFields (Y Mo D h mi s : string).

Definition token_text (tf : token_fields) : string :=
  match tf with
  | PxlFields Y Mo D h mi s ms => pxl_token Y Mo D h mi s ms
  | LvFields Y Mo D h mi s => lv_token Y Mo D h mi s
  end.

Definition well_formed (tf : token_fields) : bool :=
  match tf with
  | PxlFields Y Mo D h mi s ms =>
      digits 4 Y && digits 2 Mo && digits 2 D && digits 2 h && digits 2 mi
      && digits 2 s && digits 3 ms
  | LvFields Y Mo D h mi s =>
      digits 4 Y && digits 2 Mo && digits 2 D && digits 2 h && digits 2 mi
      && digits 2 s
  end.

Definition valid_fields (tf : token_fields) : Prop :=
  match tf with
  | PxlFields Y Mo D h mi s _
  | LvFields Y Mo D h mi s =>
      valid_calendar (decimal Y) (decimal Mo) (decimal D)
        (decimal h) (decimal mi) (decimal s)
  end.

(** The timestamp the digits spell: milliseconds scaled to microseconds for
    the first format, no sub-second part for the second. *)
Definition spelled (tf : token_fields) : datetime :=
  match tf with
  | PxlFields Y Mo D h mi s ms =>
      mk_datetime (decimal Y) (decimal Mo) (decimal D)
        (decimal h) (decimal mi) (decimal s) (decimal ms * 1000) UTC
  | LvFields Y Mo D h mi s =>
      mk_datetime (decimal Y) (decimal Mo) (decimal D)
        (decimal h) (decimal mi) (decimal s) 0 UTC
  end.

Definition is_none {A} (o : option A) : bool :=
  match o with
  | None => true
  | Some _ => false
  end.

(** The token placed after [pre] is the occurrence the matcher uses: the
    leftmost of its format and, for the second format, in a file name the
    first pattern does not match. *)
Definition first_match (pre : string) (tf : token_fields) (post : string)
  : bool :=
  match tf with
  | PxlFields _ _ _ _ _ _ _ =>
      no_earlier_match pxl_pattern pre (token_text tf ++ post)
  | LvFields _ _ _ _ _ _ =>
      is_none (re_search pxl_pattern (pre ++ token_text tf ++ post))
      && no_earlier_match lv_pattern pre (token_text tf ++ post)
  end.

(** The entry a path of the directory resolves to: the first one that
    carries the path's last component. *)
Fixpoint find_entry (name : string) (es : list (string * node))
  : option node :=
  match es with
  | [] => None
  | (n, nd) :: es' => if (n =? name)%string then Some nd else find_entry name es'
  end.

(** The five supported extensions; [file_extensions] holds the pattern
    of each. *)
Definition extensions : list string := ["mp4"; "mov"; "avi"; "mkv"; "jpg"].

Fixpoint ends_with (suffix s : string) : bool :=
  (suffix =? s)%string ||
  match s with
  | EmptyString => false
  | String _ s' => ends_with suffix s'
  end.

(** A name has extension [e] when it ends with a dot and [e]. *)
Definition has_extension (e name : string) : bool :=
  ends_with ("." ++ e) name.

(** The names [glob] keeps for extension [e]: those that are not hidden. *)
Definition supported_by (e name : string) : bool :=
  negb (ishidden name) && has_extension e name.


(** The names of a directory listing that a run visits, in the order it
    visits them: extension by extension, each in the order of the listing. *)
Definition selected (names : list string) : list string :=
  flat_map (fun e => filter (supported_by e) names) extensions.






(** What is below an entry: the entries of a subdirectory. *)
Definition children (nd : node) : option (list (string * node)) :=
  match nd with
  | File _ => None
  | Dir _ es => Some es
  end.

Definition skeleton (es : list (string * node))
  : list (string * option (list (string * node))) :=
  map (fun e => (fst e, children (snd e))) es.




(** ** Example directories *)

Definition untouched : attrs := mk_attrs 1700000000000000 1700000000000000 None.

(** The directory of the specification's example: one file of each kind it
    lists, and a text file. *)
Definition spec_example_dir : world :=
  mk_world
    (Some (Dir untouched
       [("PXL_20230615_143022123.mp4", File untouched);
        ("notes.txt", File untouched);
        ("PXL_20230615_143022123(1).jpg", File untouched);
        ("lv_0_20230615143022.mp4", File untouched);
        ("random_video.mp4", File untouched)]))
    [].

(** A directory with a well-formed token whose month is 13. *)
Definition month13_dir : world :=
  mk_world
    (Some (Dir untouched
       [("PXL_20230615_143022123.mp4", File untouched);
        ("PXL_20231301_120000000.mp4", File untouched);
        ("lv_0_20230615143022.mp4", File untouched)]))
    [].



(** A path that does not exist. *)
Definition no_such_dir : world := mk_world None [].

(* ================================================================== *)
(** * A run without its narration *)
(* ================================================================== *)

(** The paths the loops of [process_directory] go through, in order. *)
Definition visited (directory : string) (w : world) : list string :=
  flat_map (fun ext => glob_glob (os_path_join directory ext) w)
    file_extensions.

Definition target_entries (tg : option node) : list (string * node) :=
  match tg with
  | Some (Dir _ es) => es
  | _ => []
  end.

(** What a run can depend on besides the names of the files: whether
    [os.utime] is refused. *)
Definition perms (es : list (string * node)) : list (string * option string) :=
  map (fun e => (fst e, utime_error (node_attrs (snd e)))) es.

(** What one iteration does to the entries of the directory... *)
Definition stamp (name : string) (t : Z * Z) (es : list (string * node))
  : list (string * node) :=
  match utime_entries name t es with
  | Ok es' => es'
  | Raise _ => es
  end.

Definition step_entries (p : string) (es : list (string * node))
  : list (string * node) :=
  match parse_filename (os_path_basename p) with
  | Ok (Some dt) =>
      stamp (os_path_basename p) (timestamp dt, timestamp dt) es
  | _ => es
  end.

Definition step_target (p : string) (tg : option node) : option node :=
  match tg with
  | Some (Dir a es) => Some (Dir a (step_entries p es))
  | _ => tg
  end.

(** ... and to the two counters. *)
Definition step_counts (p : string) (tg : option node) (c : nat * nat)
  : result (nat * nat) :=
  match parse_filename (os_path_basename p) with
  | Raise e => Raise e
  | Ok None => Ok (fst c, S (snd c))
  | Ok (Some dt) =>
      match tg with
      | Some (Dir _ es) =>
          match utime_entries (os_path_basename p)
                  (timestamp dt, timestamp dt) es with
          | Ok _ => Ok (S (fst c), snd c)
          | Raise _ => Ok (fst c, S (snd c))
          end
      | _ => Ok (fst c, S (snd c))
      end
  end.

Fixpoint run_counts (ps : list string) (tg : option node) (c : nat * nat)
  : result (nat * nat) :=
  match ps with
  | [] => Ok c
  | p :: ps' =>
      let? c' := step_counts p tg c in
      run_counts ps' (step_target p tg) c'
  end.

(** The iterations a run gets through: those before the first file name
    on which [parse_filename] raises. *)
Fixpoint executed (ps : list string) : list string :=
  match ps with
  | [] => []
  | p :: ps' =>
      match parse_filename (os_path_basename p) with
      | Raise _ => []
      | Ok _ => p :: executed ps'
      end
  end.

(** Two states of the scanned path that a run cannot tell apart. *)
Definition same_perms (tg tg' : option node) : Prop :=
  match tg, tg' with
  | Some (Dir _ es), Some (Dir _ es') => perms es = perms es'
  | Some (File _), Some (File _) => True
  | None, None => True
  | _, _ => False
  end.

Fixpoint run_target (ps : list string) (tg : option node) : option node :=
  match ps with
  | [] => tg
  | p :: ps' =>
      match parse_filename (os_path_basename p) with
      | Raise _ => tg
      | Ok _ => run_target ps' (step_target p tg)
      end
  end.

(** ** Outcomes of an iteration *)

(** [os.utime] goes through on [name]: the directory has an entry of that
    name and setting its times is not refused. *)
Definition can_set_times (name : string) (es : list (string * node)) : bool :=
  match find_entry name es with
  | Some nd => is_none (utime_error (node_attrs nd))
  | None => false
  end.

(** The file name of the path makes [parse_filename] raise. *)
Definition raises (p : string) : bool :=
  match parse_filename (os_path_basename p) with
  | Raise _ => true
  | Ok _ => false
  end.

(** The file name of the path parses to NotFound. *)
Definition unmatched (p : string) : bool :=
  match parse_filename (os_path_basename p) with
  | Ok None => true
  | _ => false
  end.

(** The iteration on the path counts as a success: a timestamp is parsed
    and [os.utime] goes through. *)
Definition updates (es : list (string * node)) (p : string) : bool :=
  match parse_filename (os_path_basename p) with
  | Ok (Some _) => can_set_times (os_path_basename p) es
  | _ => false
  end.

(** An entry after a run, beside the entry before it: the same name, and
    either the same node or the node with both times set to the timestamp
    its own name spells. *)
Definition stamped_or_same (e e' : string * node) : Prop :=
  fst e' = fst e
  /\ (snd e' = snd e
      \/ exists dt, parse_filename (fst e) = Ok (Some dt)
                    /\ snd e' = touch (timestamp dt, timestamp dt) (snd e)).

(** One date and time is before another: the order of the fields read
    from the year down to the microsecond. *)
Definition earlier (a b : datetime) : Prop :=
  year a < year b \/ (year a = year b /\
  (month a < month b \/ (month a = month b /\
  (day a < day b \/ (day a = day b /\
  (hour a < hour b \/ (hour a = hour b /\
  (minute a < minute b \/ (minute a = minute b /\
  (second a < second b \/ (second a = second b /\
   microsecond a < microsecond b))))))))))).

(** A datetime the constructor accepts. *)
Definition in_range (dt : datetime) : Prop :=
  valid_calendar (year dt) (month dt) (day dt)
    (hour dt) (minute dt) (second dt)
  /\ 0 <= microsecond dt <= 999999.

(** The world [w] with the text [out] printed before its own. *)
Definition after_output (out : list string) (w : world) : world :=
  mk_world (target w) (List.app out (stdout w)).

(* ================================================================== *)
(** * Properties *)
(* ================================================================== *)

(** ** Worked examples of the specification *)

Example parse_pxl :
  parse_filename "PXL_20230615_143022123.mp4"
  = Ok (Some (mk_datetime 2023 6 15 14 30 22 123000 UTC)).
Proof. reflexivity. Qed.

Example parse_pxl_parenthetical :
  parse_filename "PXL_20230615_143022123(1).jpg"
  = Ok (Some (mk_datetime 2023 6 15 14 30 22 123000 UTC)).
Proof. reflexivity. Qed.

Example parse_lv :
  parse_filename "lv_0_20230615143022.mp4"
  = Ok (Some (mk_datetime 2023 6 15 14 30 22 0 UTC)).
Proof. reflexivity. Qed.

Example parse_random : parse_filename "random_video.mp4" = NotFound.
Proof. reflexivity. Qed.

Example parse_pxl_night :
  parse_filename "PXL_20230615_143022123.NIGHT.mp4"
  = parse_filename "PXL_20230615_143022123".
Proof. reflexivity. Qed.

Example parse_pxl_exported :
  parse_filename "PXL_20230615_143022123_exported_0_1686839422123.jpg"
  = parse_filename "PXL_20230615_143022123".
Proof. reflexivity. Qed.

(** With tokens of both formats in a name the first pattern wins, and of
    two tokens of one format the left one. *)
Example parse_first_pattern_first :
  parse_filename "lv_0_20230615143022_PXL_20240101_010203004.mp4"
  = Ok (Some (mk_datetime 2024 1 1 1 2 3 4000 UTC)).
Proof. reflexivity. Qed.

Example parse_leftmost :
  parse_filename "PXL_20240101_010203004_PXL_20230615_143022123.mp4"
  = Ok (Some (mk_datetime 2024 1 1 1 2 3 4000 UTC)).
Proof. reflexivity. Qed.

Example timestamp_example :
  timestamp (mk_datetime 2023 6 15 14 30 22 123000 UTC) = 1686839422123000.
Proof. reflexivity. Qed.

(** ** Strings *)

Lemma append_assoc (a b c : string) : (a ++ b) ++ c = a ++ (b ++ c).
Proof. induction a as [|x a IH]; simpl; [reflexivity | now rewrite IH]. Qed.

Lemma append_nil_r (a : string) : a ++ "" = a.
Proof. induction a as [|x a IH]; simpl; [reflexivity | now rewrite IH]. Qed.

Lemma length_append (a b : string) :
  String.length (a ++ b) = (String.length a + String.length b)%nat.
Proof. induction a as [|x a IH]; simpl; [reflexivity | now rewrite IH]. Qed.

(** ** The matcher on tokens *)

Lemma eat_literal_append (text rest : string) :
  eat_literal text (text ++ rest) = Some rest.
Proof.
  induction text as [|c text IH]; simpl; [reflexivity|].
  now rewrite Ascii.eqb_refl.
Qed.

Lemma eat_digits_append (n : nat) (g rest : string) :
  digits n g = true -> eat_digits n (g ++ rest) = Some (g, rest).
Proof.
  unfold digits. revert g.
  induction n as [|n IH]; intros [|c g] H; simpl in *;
    try discriminate; try reflexivity.
  apply andb_true_iff in H as [Hlen Hd].
  apply andb_true_iff in Hd as [Hc Hg].
  rewrite Hc, IH; [reflexivity|].
  now rewrite Hlen, Hg.
Qed.

Lemma re_search_hit (pat : regex) (s : string) (gs : list string) :
  re_match pat s = Some gs -> re_search pat s = Some gs.
Proof. intros H. destruct s; simpl; now rewrite H. Qed.

Lemma re_search_skip (pat : regex) (pre rest : string) :
  no_earlier_match pat pre rest = true ->
  re_search pat (pre ++ rest) = re_search pat rest.
Proof.
  induction pre as [|c pre IH]; intros H; [reflexivity|].
  cbn [no_earlier_match] in H.
  destruct (re_match pat (String c pre ++ rest)) eqn:E; [discriminate|].
  change (String c pre ++ rest) with (String c (pre ++ rest)) in *.
  cbn [re_search]. rewrite E. now apply IH.
Qed.

Lemma re_match_pxl_token (Y Mo D h mi s ms post : string) :
  digits 4 Y = true -> digits 2 Mo = true -> digits 2 D = true ->
  digits 2 h = true -> digits 2 mi = true -> digits 2 s = true ->
  digits 3 ms = true ->
  re_match pxl_pattern (pxl_token Y Mo D h mi s ms ++ post)
  = Some [Y; Mo; D; h; mi; s; ms].
Proof.
  intros HY HMo HD Hh Hmi Hs Hms.
  unfold pxl_token, pxl_pattern.
  rewrite !append_assoc.
  cbn [re_match]. rewrite eat_literal_append.
  rewrite (eat_digits_append _ _ _ HY), (eat_digits_append _ _ _ HMo),
    (eat_digits_append _ _ _ HD), eat_literal_append,
    (eat_digits_append _ _ _ Hh), (eat_digits_append _ _ _ Hmi),
    (eat_digits_append _ _ _ Hs), (eat_digits_append _ _ _ Hms).
  reflexivity.
Qed.

Lemma re_match_lv_token (Y Mo D h mi s post : string) :
  digits 4 Y = true -> digits 2 Mo = true -> digits 2 D = true ->
  digits 2 h = true -> digits 2 mi = true -> digits 2 s = true ->
  re_match lv_pattern (lv_token Y Mo D h mi s ++ post)
  = Some [Y; Mo; D; h; mi; s].
Proof.
  intros HY HMo HD Hh Hmi Hs.
  unfold lv_token, lv_pattern.
  rewrite !append_assoc.
  cbn [re_match]. rewrite eat_literal_append.
  rewrite (eat_digits_append _ _ _ HY), (eat_digits_append _ _ _ HMo),
    (eat_digits_append _ _ _ HD),
    (eat_digits_append _ _ _ Hh), (eat_digits_append _ _ _ Hmi),
    (eat_digits_append _ _ _ Hs).
  reflexivity.
Qed.

(** ** Digits and numbers *)

Lemma is_digit_value (c : ascii) :
  is_digit c = true -> 0 <= digit_value c <= 9.
Proof.
  unfold is_digit, digit_value. intros H.
  apply andb_true_iff in H as [H1 H2].
  apply Nat.leb_le in H1, H2. lia.
Qed.

Lemma int_from_decimal (s : string) (acc : Z) :
  all_digits s = true -> int_from acc s = Ok (decimal_from acc s).
Proof.
  revert acc. induction s as [|c s IH]; intros acc H; simpl in *.
  - reflexivity.
  - apply andb_true_iff in H as [Hc Hs]. rewrite Hc. now apply IH.
Qed.

Lemma int_digits (n : nat) (s : string) :
  digits (S n) s = true -> int s = Ok (decimal s).
Proof.
  unfold digits, int, decimal. intros H.
  apply andb_true_iff in H as [Hlen Hs].
  destruct s as [|c s]; [discriminate|].
  now apply int_from_decimal.
Qed.

Lemma decimal_from_bounds (s : string) (acc : Z) :
  all_digits s = true -> 0 <= acc ->
  acc * 10 ^ Z.of_nat (String.length s) <= decimal_from acc s
  /\ decimal_from acc s < (acc + 1) * 10 ^ Z.of_nat (String.length s).
Proof.
  revert acc. induction s as [|c s IH]; intros acc H Hacc.
  - simpl. lia.
  - cbn [all_digits] in H. apply andb_true_iff in H as [Hc Hs].
    apply is_digit_value in Hc.
    cbn [decimal_from String.length].
    rewrite Nat2Z.inj_succ, Z.pow_succ_r by lia.
    specialize (IH (10 * acc + digit_value c) Hs ltac:(lia)).
    assert (0 < 10 ^ Z.of_nat (String.length s)) by (apply Z.pow_pos_nonneg; lia).
    nia.
Qed.

Lemma decimal_bounds (n : nat) (s : string) :
  digits n s = true -> 0 <= decimal s < 10 ^ Z.of_nat n.
Proof.
  unfold digits, decimal. intros H.
  apply andb_true_iff in H as [Hlen Hs].
  apply Nat.eqb_eq in Hlen. subst n.
  pose proof (decimal_from_bounds s 0 Hs ltac:(lia)). lia.
Qed.

(** ** The datetime constructor *)

Lemma is_leap_leap_year (y : Z) : is_leap y = leap_year y.
Proof.
  unfold is_leap, leap_year.
  destruct (y mod 4 =? 0) eqn:E4, (y mod 100 =? 0) eqn:E100,
    (y mod 400 =? 0) eqn:E400; try reflexivity; exfalso.
  - apply Z.eqb_neq in E4. apply Z.eqb_eq in E400.
    apply E4. apply Z.mod_divide; [lia|].
    apply Z.mod_divide in E400; [|lia].
    destruct E400 as [k ->]. exists (k * 100). lia.
  - apply Z.eqb_neq in E4. apply Z.eqb_eq in E400.
    apply E4. apply Z.mod_divide; [lia|].
    apply Z.mod_divide in E400; [|lia].
    destruct E400 as [k ->]. exists (k * 100). lia.
Qed.

Lemma days_in_month_length (y m : Z) :
  1 <= m <= 12 -> days_in_month y m = month_length y m.
Proof.
  intros Hm. unfold days_in_month, month_length.
  rewrite is_leap_leap_year.
  assert (m = 1 \/ m = 2 \/ m = 3 \/ m = 4 \/ m = 5 \/ m = 6 \/ m = 7 \/
          m = 8 \/ m = 9 \/ m = 10 \/ m = 11 \/ m = 12) as Hcases by lia.
  repeat (destruct Hcases as [-> | Hcases]); try subst m; simpl;
    try reflexivity; destruct (leap_year y); reflexivity.
Qed.

Lemma datetime_new_valid (y m d h mi s us : Z) (tz : timezone) :
  valid_calendar y m d h mi s -> 0 <= us <= 999999 ->
  datetime_new y m d h mi s us tz = Ok (mk_datetime y m d h mi s us tz).
Proof.
  intros (Hy & Hm & Hd & Hh & Hmi & Hs) Hus.
  rewrite <- days_in_month_length in Hd by assumption.
  unfold datetime_new, check_date_fields, check_time_fields, MINYEAR, MAXYEAR.
  repeat match goal with
  | |- context [?a <=? ?b] =>
      replace (a <=? b) with true by (symmetry; apply Z.leb_le; lia)
  end.
  reflexivity.
Qed.

(** A field out of its range makes the constructor raise. *)
Lemma datetime_new_invalid (y m d h mi s us : Z) (tz : timezone) :
  ~ valid_calendar y m d h mi s ->
  datetime_new y m d h mi s us tz = Raise ValueError.
Proof.
  intros Hbad.
  unfold datetime_new, check_date_fields, check_time_fields, MINYEAR, MAXYEAR.
  destruct ((1 <=? y) && (y <=? 9999)) eqn:Ey; [|reflexivity].
  destruct ((1 <=? m) && (m <=? 12)) eqn:Em; [|reflexivity].
  destruct ((1 <=? d) && (d <=? days_in_month y m)) eqn:Ed; [|reflexivity].
  destruct ((0 <=? h) && (h <=? 23)) eqn:Eh; [|reflexivity].
  destruct ((0 <=? mi) && (mi <=? 59)) eqn:Emi; [|reflexivity].
  destruct ((0 <=? s) && (s <=? 59)) eqn:Es; [|reflexivity].
  exfalso. apply Hbad.
  repeat match goal with
  | H : _ && _ = true |- _ => apply andb_true_iff in H as [? ?]
  | H : (_ <=? _) = true |- _ => apply Z.leb_le in H
  end.
  rewrite days_in_month_length in * by lia.
  unfold valid_calendar. lia.
Qed.

(** ** parse_filename on a token *)

Ltac split_andb :=
  repeat match goal with
  | H : _ && _ = true |- _ => apply andb_true_iff in H as [? ?]
  end.

Lemma parse_filename_first_match (pre post : string) (tf : token_fields) :
  well_formed tf = true -> first_match pre tf post = true ->
  parse_filename (pre ++ token_text tf ++ post)
  = match tf with
    | PxlFields Y Mo D h mi s ms =>
        let? dt := datetime_new (decimal Y) (decimal Mo) (decimal D)
                     (decimal h) (decimal mi) (decimal s)
                     (decimal ms * 1000) UTC in
        Ok (Some dt)
    | LvFields Y Mo D h mi s =>
        let? dt := datetime_new (decimal Y) (decimal Mo) (decimal D)
                     (decimal h) (decimal mi) (decimal s) 0 UTC in
        Ok (Some dt)
    end.
Proof.
  intros Hwf Hfirst. unfold parse_filename.
  destruct tf as [Y Mo D h mi s ms | Y Mo D h mi s];
    cbn [well_formed first_match token_text] in *; split_andb.
  - rewrite (re_search_skip _ _ _ Hfirst).
    rewrite (re_search_hit _ _ [Y; Mo; D; h; mi; s; ms])
      by now apply re_match_pxl_token.
    cbn [rmap].
    repeat match goal with
    | H : digits (S ?n) ?g = true |- _ =>
        rewrite (int_digits n g H); clear H
    end.
    reflexivity.
  - match goal with
    | H : is_none ?o = true |- _ => destruct o; [discriminate|]
    end.
    rewrite (re_search_skip _ _ _ ltac:(eassumption)).
    rewrite (re_search_hit _ _ [Y; Mo; D; h; mi; s])
      by now apply re_match_lv_token.
    cbn [rmap].
    repeat match goal with
    | H : digits (S ?n) ?g = true |- _ =>
        rewrite (int_digits n g H); clear H
    end.
    reflexivity.
Qed.

Lemma parse_filename_valid_token (pre post : string) (tf : token_fields) :
  well_formed tf = true ->
  valid_fields tf ->
  first_match pre tf post = true ->
  parse_filename (pre ++ token_text tf ++ post) = Ok (Some (spelled tf)).
Proof.
  intros Hwf Hvalid Hfirst.
  rewrite parse_filename_first_match by assumption.
  destruct tf as [Y Mo D h mi s ms | Y Mo D h mi s];
    cbn [well_formed valid_fields spelled] in *; split_andb.
  - rewrite datetime_new_valid; [reflexivity | assumption |].
    pose proof (decimal_bounds 3 ms ltac:(assumption)) as Hms.
    change (10 ^ Z.of_nat 3) with 1000 in Hms. lia.
  - rewrite datetime_new_valid; [reflexivity | assumption | lia].
Qed.

(** The same token with out-of-range fields: the constructor's error
    leaves [parse_filename]. *)
Lemma parse_filename_invalid_token (pre post : string) (tf : token_fields) :
  well_formed tf = true ->
  ~ valid_fields tf ->
  first_match pre tf post = true ->
  parse_filename (pre ++ token_text tf ++ post) = Raise ValueError.
Proof.
  intros Hwf Hbad Hfirst.
  rewrite parse_filename_first_match by assumption.
  destruct tf as [Y Mo D h mi s ms | Y Mo D h mi s];
    cbn [valid_fields] in Hbad; now rewrite datetime_new_invalid.
Qed.

Lemma eat_literal_extend (text s rest post : string) :
  eat_literal text s = Some rest ->
  eat_literal text (s ++ post) = Some (rest ++ post).
Proof.
  revert s. induction text as [|c text IH]; intros s H; simpl in *.
  - now inversion H.
  - destruct s as [|d s]; [discriminate|]. simpl.
    destruct (Ascii.eqb c d); [now apply IH | discriminate].
Qed.

Lemma eat_digits_extend (n : nat) (s g rest post : string) :
  eat_digits n s = Some (g, rest) ->
  eat_digits n (s ++ post) = Some (g, rest ++ post).
Proof.
  revert s g. induction n as [|n IH]; intros s g H; simpl in *.
  - now inversion H.
  - destruct s as [|d s]; [discriminate|]. simpl.
    destruct (is_digit d); [|discriminate].
    destruct (eat_digits n s) as [[g' r']|] eqn:E; [|discriminate].
    inversion H; subst. now rewrite (IH _ _ E).
Qed.

Lemma re_match_extend (pat : regex) (s post : string) (gs : list string) :
  re_match pat s = Some gs -> re_match pat (s ++ post) = Some gs.
Proof.
  revert s gs. induction pat as [|[text|n] pat IH]; intros s gs H;
    cbn [re_match] in *.
  - assumption.
  - destruct (eat_literal text s) as [rest|] eqn:E; [|discriminate].
    rewrite (eat_literal_extend _ _ _ post E). now apply IH.
  - destruct (eat_digits n s) as [[g rest]|] eqn:E; [|discriminate].
    rewrite (eat_digits_extend _ _ _ _ post E).
    destruct (re_match pat rest) as [gs'|] eqn:E'; [|discriminate].
    now rewrite (IH _ _ E').
Qed.

Lemma re_search_none_suffix (pat : regex) (pre s : string) :
  re_search pat (pre ++ s) = None -> re_search pat s = None.
Proof.
  induction pre as [|c pre IH]; intros H; [assumption|].
  apply IH. simpl in H.
  destruct (re_match pat (String c (pre ++ s))); [discriminate | assumption].
Qed.

Lemma re_search_none_prefix (pat : regex) (s post : string) :
  re_search pat (s ++ post) = None -> re_search pat s = None.
Proof.
  induction s as [|c s IH]; intros H.
  - cbn [re_search]. destruct (re_match pat "") as [gs|] eqn:E; [|reflexivity].
    pose proof (re_search_hit _ _ _ (re_match_extend _ _ post _ E)) as Hhit.
    rewrite H in Hhit. discriminate.
  - cbn [re_search].
    destruct (re_match pat (String c s)) as [gs|] eqn:E.
    + pose proof (re_search_hit _ _ _ (re_match_extend _ _ post _ E)) as Hhit.
      rewrite H in Hhit. discriminate.
    + apply IH. change (String c s ++ post) with (String c (s ++ post)) in H.
      cbn [re_search] in H.
      destruct (re_match pat (String c (s ++ post))); [discriminate|assumption].
Qed.

Lemma first_match_bare (pre post : string) (tf : token_fields) :
  first_match pre tf post = true -> first_match "" tf "" = true.
Proof.
  destruct tf; cbn [first_match no_earlier_match]; intros H; [reflexivity|].
  apply andb_true_iff in H as [H _]. rewrite andb_true_r.
  destruct (re_search pxl_pattern (pre ++ _ ++ post)) eqn:E; [discriminate|].
  apply re_search_none_suffix, re_search_none_prefix in E.
  cbn [append]. now rewrite append_nil_r, E.
Qed.

(** [re_search] finds the leftmost position at which the pattern matches,
    and none only when the pattern matches nowhere. *)
Lemma re_search_leftmost (pat : regex) (s : string) (gs : list string) :
  re_search pat s = Some gs ->
  exists pre rest,
    s = pre ++ rest /\ no_earlier_match pat pre rest = true
    /\ re_match pat rest = Some gs.
Proof.
  induction s as [|c s IH]; cbn [re_search]; intros H.
  - destruct (re_match pat "") eqn:E; [|discriminate].
    exists "", "". now inversion H; subst.
  - destruct (re_match pat (String c s)) eqn:E.
    + exists "", (String c s). now inversion H; subst.
    + destruct (IH H) as (pre & rest & -> & Hpre & Hrest).
      exists (String c pre), rest. repeat split; [|assumption].
      cbn [no_earlier_match].
      change (String c pre ++ rest) with (String c (pre ++ rest)).
      now rewrite E.
Qed.

Lemma re_search_none (pat : regex) (s : string) :
  re_search pat s = None <->
  forall pre rest, s = pre ++ rest -> re_match pat rest = None.
Proof.
  split.
  - intros H pre rest ->. apply re_search_none_suffix in H.
    destruct rest; cbn [re_search] in H;
      destruct (re_match pat _); (discriminate || reflexivity).
  - induction s as [|c s IH]; intros H; cbn [re_search].
    + now rewrite (H "" "" eq_refl).
    + rewrite (H "" (String c s) eq_refl). apply IH.
      intros pre rest ->. now apply (H (String c pre) rest).
Qed.

Lemma digits_length (n : nat) (g : string) :
  digits n g = true -> String.length g = n.
Proof.
  unfold digits. intros H. apply andb_true_iff in H as [H _].
  now apply Nat.eqb_eq.
Qed.

(** The tokens of the vocabulary are the strings the patterns match from
    end to end. *)
Lemma well_formed_is_token (tf : token_fields) :
  well_formed tf = true ->
  is_token (match tf with
            | PxlFields _ _ _ _ _ _ _ => pxl_pattern
            | LvFields _ _ _ _ _ _ => lv_pattern
            end) (token_text tf) = true.
Proof.
  intros Hwf. unfold is_token.
  destruct tf as [Y Mo D h mi s ms | Y Mo D h mi s];
    cbn [well_formed token_text] in *;
    repeat match goal with
    | H : _ && _ = true |- _ => apply andb_true_iff in H as [? ?]
    end.
  - pose proof (re_match_pxl_token Y Mo D h mi s ms "") as Hm.
    rewrite append_nil_r in Hm. rewrite Hm by assumption.
    unfold pxl_token. rewrite !length_append.
    repeat match goal with
    | H : digits _ _ = true |- _ => apply digits_length in H; rewrite H
    end.
    reflexivity.
  - pose proof (re_match_lv_token Y Mo D h mi s "") as Hm.
    rewrite append_nil_r in Hm. rewrite Hm by assumption.
    unfold lv_token. rewrite !length_append.
    repeat match goal with
    | H : digits _ _ = true |- _ => apply digits_length in H; rewrite H
    end.
    reflexivity.
Qed.

(** C2: for every file name in which the token the matcher uses (the
    leftmost of its format, the first format before the second) has its
    numeric fields in the calendar ranges, [parse_filename] returns the UTC
    timestamp whose fields are exactly the digits of the token: the three
    millisecond digits times 1000 as microseconds for
    [PXL_YYYYMMDD_HHMMSSmmm], and a zero sub-second part for
    [lv_0_YYYYMMDDHHMMSS]. *)
Theorem C2_valid_token_parses_to_its_digits
    (pre post : string) (tf : token_fields) :
  well_formed tf = true ->
  valid_fields tf ->
  first_match pre tf post = true ->
  parse_filename (pre ++ token_text tf ++ post) = Ok (Some (spelled tf))
  /\ tzinfo (spelled tf) = UTC
  /\ match tf with
     | PxlFields Y Mo D h mi s ms =>
         year (spelled tf) = decimal Y /\ month (spelled tf) = decimal Mo
         /\ day (spelled tf) = decimal D /\ hour (spelled tf) = decimal h
         /\ minute (spelled tf) = decimal mi
         /\ second (spelled tf) = decimal s
         /\ microsecond (spelled tf) = decimal ms * 1000
     | LvFields Y Mo D h mi s =>
         year (spelled tf) = decimal Y /\ month (spelled tf) = decimal Mo
         /\ day (spelled tf) = decimal D /\ hour (spelled tf) = decimal h
         /\ minute (spelled tf) = decimal mi
         /\ second (spelled tf) = decimal s
         /\ microsecond (spelled tf) = 0
     end.
Proof.
  intros Hwf Hvalid Hfirst. split.
  - now apply parse_filename_valid_token.
  - destruct tf; cbn; repeat split.
Qed.

Lemma C2_valid_token_parses_to_its_digits_witness :
  parse_filename
    ("IMG_" ++ token_text (PxlFields "2023" "06" "15" "14" "30" "22" "123")
     ++ ".NIGHT.mp4")
  = Ok (Some (mk_datetime 2023 6 15 14 30 22 123000 UTC))
  /\ parse_filename
       ("copy of " ++ token_text (LvFields "2023" "06" "15" "14" "30" "22")
        ++ ".mp4")
     = Ok (Some (mk_datetime 2023 6 15 14 30 22 0 UTC)).
Proof.
  split.
  - apply (C2_valid_token_parses_to_its_digits "IMG_" ".NIGHT.mp4"
             (PxlFields "2023" "06" "15" "14" "30" "22" "123")).
    + reflexivity.
    + vm_compute. repeat split; discriminate.
    + reflexivity.
  - apply (C2_valid_token_parses_to_its_digits "copy of " ".mp4"
             (LvFields "2023" "06" "15" "14" "30" "22")).
    + reflexivity.
    + vm_compute. repeat split; discriminate.
    + reflexivity.
Defined.

(** C4: the search is not anchored.  A file name made of a valid token with
    any text before and after it parses to the same timestamp as the bare
    token, the token being the occurrence the matcher uses (the leftmost of
    its format, the first format before the second). *)
Theorem C4_surrounding_text_is_ignored
    (pre post : string) (tf : token_fields) :
  well_formed tf = true ->
  valid_fields tf ->
  first_match pre tf post = true ->
  exists dt : datetime,
    parse_filename (token_text tf) = Ok (Some dt)
    /\ parse_filename (pre ++ token_text tf ++ post) = Ok (Some dt).
Proof.
  intros Hwf Hvalid Hfirst. exists (spelled tf). split.
  - pose proof (parse_filename_valid_token "" "" tf Hwf Hvalid
                  (first_match_bare _ _ _ Hfirst)) as H.
    cbn [append] in H. now rewrite append_nil_r in H.
  - now apply parse_filename_valid_token.
Qed.

Lemma C4_surrounding_text_is_ignored_witness :
  exists dt : datetime,
    parse_filename "PXL_20230615_143022123" = Ok (Some dt)
    /\ parse_filename
         ("2023 trip - " ++ "PXL_20230615_143022123" ++ "(1).NIGHT.jpg")
       = Ok (Some dt).
Proof.
  apply (C4_surrounding_text_is_ignored "2023 trip - " "(1).NIGHT.jpg"
           (PxlFields "2023" "06" "15" "14" "30" "22" "123")).
  - reflexivity.
  - vm_compute. repeat split; discriminate.
  - reflexivity.
Defined.

(** ** One iteration of the loop *)

Lemma os_utime_entries (p : string) (t : Z * Z) (w : world) :
  os_utime p t w
  = match target w with
    | Some (Dir a es) =>
        match utime_entries (os_path_basename p) t es with
        | Ok es' => Ok (mk_world (Some (Dir a es')) (stdout w))
        | Raise e => Raise e
        end
    | _ => Raise (OSError ENOENT)
    end.
Proof.
  unfold os_utime. destruct (target w) as [[a|a es]|]; reflexivity.
Qed.

Lemma when_target (b : bool) (line : string) (w : world) :
  fst (when b (print line) w) = Ok tt
  /\ target (snd (when b (print line) w)) = target w.
Proof. destruct b; split; reflexivity. Qed.

Lemma process_file_sem (v : Z) (p : string) (c : nat * nat) (w : world) :
  fst (process_file v p c w) = step_counts p (target w) c
  /\ target (snd (process_file v p c w)) = step_target p (target w).
Proof.
  destruct c as [s f].
  unfold process_file, step_counts, step_target, step_entries, stamp, bind,
    lift, update_file_modification_time, ret.
  destruct (when (2 <=? v) (print _) w) as [r1 w1] eqn:E1.
  pose proof (when_target (2 <=? v)
                ("Processing " ++ os_path_basename p ++ "...") w) as [Hr Ht].
  rewrite E1 in Hr, Ht. cbn [fst snd] in Hr, Ht. subst r1.
  destruct (parse_filename (os_path_basename p)) as [[dt|]|e].
  - rewrite os_utime_entries, Ht.
    destruct (target w) as [[a|a es]|]; cbn [print bind ret fst snd target].
    + split; [reflexivity | assumption].
    + destruct (utime_entries (os_path_basename p)
                  (timestamp dt, timestamp dt) es)
        as [es'|e]; cbn [print bind ret fst snd target].
      * destruct (2 <=? v); cbn; split; reflexivity.
      * split; [reflexivity | assumption].
    + split; [reflexivity | assumption].
  - destruct (1 <=? v); cbn; (split; [reflexivity|]);
      rewrite Ht; now destruct (target w) as [[?|? ?]|].
  - cbn. split; [reflexivity|].
    rewrite Ht; now destruct (target w) as [[?|? ?]|].
Qed.

Lemma step_target_raise (p : string) (tg : option node) (e : exn) :
  parse_filename (os_path_basename p) = Raise e -> step_target p tg = tg.
Proof.
  intros H. unfold step_target, step_entries. rewrite H.
  now destruct tg as [[?|? ?]|].
Qed.

Lemma for_each_process_file_sem (v : Z) (ps : list string) :
  forall (c : nat * nat) (w : world),
    fst (for_each ps (process_file v) c w) = run_counts ps (target w) c
    /\ target (snd (for_each ps (process_file v) c w))
       = run_target ps (target w).
Proof.
  induction ps as [|p ps IH]; intros c w; [split; reflexivity|].
  cbn [for_each run_counts run_target]. unfold bind.
  pose proof (process_file_sem v p c w) as [Hc Ht].
  destruct (process_file v p c w) as [[c'|e] w'] eqn:E;
    cbn [fst snd] in Hc, Ht; rewrite <- Hc; cbn [rbind fst snd].
  - destruct (IH c' w') as [IHc IHt]. rewrite IHc, IHt, Ht. split; [reflexivity|].
    unfold step_counts in Hc.
    destruct (parse_filename (os_path_basename p)) as [o|e];
      [reflexivity | discriminate].
  - split; [reflexivity|].
    unfold step_counts in Hc.
    destruct (parse_filename (os_path_basename p)) as [[dt|]|e'] eqn:Ep.
    + destruct (target w) as [[?|? es]|]; try discriminate.
      destruct (utime_entries _ _ es); discriminate.
    + discriminate.
    + rewrite Ht. now apply step_target_raise with e'.
Qed.

(** ** What a run keeps: names and permissions *)

Lemma utime_entries_perms (name : string) (t : Z * Z)
    (es es' : list (string * node)) :
  utime_entries name t es = Ok es' -> perms es' = perms es.
Proof.
  revert es'. induction es as [|[n nd] es IH]; intros es' H;
    cbn [utime_entries] in H; [discriminate|].
  destruct (n =? name)%string.
  - destruct (utime_error (node_attrs nd)) eqn:E; [discriminate|].
    inversion H; subst. cbn. f_equal. f_equal. now destruct nd.
  - destruct (utime_entries name t es) as [es''|e]; [|discriminate].
    inversion H; subst. cbn. f_equal. now apply IH.
Qed.

Lemma step_entries_perms (p : string) (es : list (string * node)) :
  perms (step_entries p es) = perms es.
Proof.
  unfold step_entries, stamp.
  destruct (parse_filename _) as [[dt|]|e]; try reflexivity.
  destruct (utime_entries _ _ es) eqn:E; [|reflexivity].
  now apply utime_entries_perms in E.
Qed.

Lemma perms_names (es es' : list (string * node)) :
  perms es' = perms es -> map fst es' = map fst es.
Proof.
  intros H. apply (f_equal (map fst)) in H.
  unfold perms in H. now rewrite !map_map in H.
Qed.

Lemma step_target_perms (p : string) (tg : option node) :
  perms (target_entries (step_target p tg)) = perms (target_entries tg).
Proof.
  destruct tg as [[a|a es]|]; try reflexivity.
  apply step_entries_perms.
Qed.

Lemma run_target_perms (ps : list string) :
  forall tg, perms (target_entries (run_target ps tg))
             = perms (target_entries tg).
Proof.
  induction ps as [|p ps IH]; intros tg; [reflexivity|].
  cbn [run_target]. destruct (parse_filename _); [|reflexivity].
  now rewrite IH, step_target_perms.
Qed.

Lemma listdir_target (w : world) :
  listdir w = map fst (target_entries (target w)).
Proof. reflexivity. Qed.

Lemma glob_glob_listdir (pathname : string) (w w' : world) :
  listdir w' = listdir w -> glob_glob pathname w' = glob_glob pathname w.
Proof. intros H. unfold glob_glob. now rewrite H. Qed.

Lemma for_each_listdir (v : Z) (ps : list string) (c : nat * nat)
    (w : world) :
  listdir (snd (for_each ps (process_file v) c w)) = listdir w.
Proof.
  rewrite !listdir_target.
  destruct (for_each_process_file_sem v ps c w) as [_ ->].
  apply perms_names, run_target_perms.
Qed.

(** ** The two loops are one loop over the visited paths *)

Lemma for_each_app {X A} (body : X -> A -> M A) (xs ys : list X) :
  forall (acc : A) (w : world),
    for_each (xs ++ ys)%list body acc w
    = match for_each xs body acc w with
      | (Ok acc', w') => for_each ys body acc' w'
      | (Raise e, w') => (Raise e, w')
      end.
Proof.
  induction xs as [|x xs IH]; intros acc w; [reflexivity|].
  cbn [for_each app]. unfold bind.
  destruct (body x acc w) as [[acc'|e] w']; [apply IH | reflexivity].
Qed.

Lemma nested_loops_flatten (directory : string) (v : Z)
    (exts : list string) :
  forall (c : nat * nat) (w : world),
    for_each exts
      (fun ext counts w0 =>
         for_each (glob_glob (os_path_join directory ext) w0)
           (process_file v) counts w0) c w
    = for_each
        (flat_map (fun ext => glob_glob (os_path_join directory ext) w) exts)
        (process_file v) c w.
Proof.
  induction exts as [|ext exts IH]; intros c w; [reflexivity|].
  cbn [for_each flat_map]. rewrite for_each_app. unfold bind.
  pose proof (for_each_listdir v
                (glob_glob (os_path_join directory ext) w) c w) as Hl.
  destruct (for_each (glob_glob (os_path_join directory ext) w)
              (process_file v) c w) as [[c'|e] w']; [|reflexivity].
  cbn [snd] in Hl. rewrite IH. f_equal.
  apply flat_map_ext. intros a. now apply glob_glob_listdir.
Qed.

Lemma process_directory_visited (directory : string) (v : Z) (w : world) :
  process_directory directory v w
  = for_each (visited directory w) (process_file v) (0%nat, 0%nat) w.
Proof. apply nested_loops_flatten. Qed.

Lemma process_directory_sem (directory : string) (v : Z) (w : world) :
  fst (process_directory directory v w)
  = run_counts (visited directory w) (target w) (0%nat, 0%nat)
  /\ target (snd (process_directory directory v w))
     = run_target (visited directory w) (target w).
Proof.
  rewrite process_directory_visited. apply for_each_process_file_sem.
Qed.


(** ** The tally *)

Lemma step_counts_cases (p : string) (tg : option node) (c : nat * nat) :
  match step_counts p tg c with
  | Ok c' => c' = (S (fst c), snd c) \/ c' = (fst c, S (snd c))
  | Raise e => parse_filename (os_path_basename p) = Raise e
  end.
Proof.
  unfold step_counts.
  destruct (parse_filename _) as [[dt|]|e]; [| now right | reflexivity].
  destruct tg as [[a|a es]|]; try now right.
  destruct (utime_entries _ _ es); [now left | now right].
Qed.

Lemma run_counts_total (ps : list string) :
  forall (tg : option node) (c : nat * nat),
    match run_counts ps tg c with
    | Ok c' => (fst c' + snd c' = fst c + snd c + List.length ps)%nat
    | Raise e =>
        exists p, In p ps /\ parse_filename (os_path_basename p) = Raise e
    end.
Proof.
  induction ps as [|p ps IH]; intros tg c; cbn [run_counts List.length].
  - lia.
  - pose proof (step_counts_cases p tg c) as Hstep.
    destruct (step_counts p tg c) as [c'|e]; cbn [rbind].
    + specialize (IH (step_target p tg) c').
      destruct (run_counts ps (step_target p tg) c') as [c''|e].
      * destruct Hstep as [-> | ->]; cbn [fst snd] in IH; lia.
      * destruct IH as (q & Hq & Hraise). exists q. split; [now right | assumption].
    + exists p. split; [now left | assumption].
Qed.

(** C10: both counters start at zero, every visited file adds one to
    exactly one of them, and the tally a run returns adds up to the number
    of files visited.  (A run returns no tally only when the name of a
    visited file makes [parse_filename] raise.) *)
Theorem C10_tally_adds_up_to_the_visited_files
    (directory : string) (verbose : Z) (w : world) :
  process_directory directory verbose w
  = for_each (visited directory w) (process_file verbose) (0%nat, 0%nat) w
  /\ (forall (p : string) (s f : nat) (w0 : world),
        match fst (process_file verbose p (s, f) w0) with
        | Ok c' => c' = (S s, f) \/ c' = (s, S f)
        | Raise e => parse_filename (os_path_basename p) = Raise e
        end)
  /\ match fst (process_directory directory verbose w) with
     | Ok (s, f) => (s + f)%nat = List.length (visited directory w)
     | Raise e =>
         exists p, In p (visited directory w)
                   /\ parse_filename (os_path_basename p) = Raise e
     end.
Proof.
  split; [apply process_directory_visited|]. split.
  - intros p s f w0.
    destruct (process_file_sem verbose p (s, f) w0) as [-> _].
    apply (step_counts_cases p (target w0) (s, f)).
  - destruct (process_directory_sem directory verbose w) as [-> _].
    pose proof (run_counts_total (visited directory w) (target w) (0%nat, 0%nat))
      as H.
    destruct (run_counts _ _ _) as [[s f]|e]; [|assumption].
    cbn [fst snd] in H. lia.
Qed.

(** ** Files a run leaves alone *)

Lemma utime_entries_other (name : string) (t : Z * Z)
    (es es' : list (string * node)) :
  utime_entries name t es = Ok es' ->
  forall (i : nat) (n : string) (nd : node),
    n <> name -> nth_error es i = Some (n, nd) ->
    nth_error es' i = Some (n, nd).
Proof.
  revert es'. induction es as [|[m md] es IH]; intros es' H i n nd Hn Hi;
    cbn [utime_entries] in H; [discriminate|].
  destruct (m =? name)%string eqn:E.
  - apply String.eqb_eq in E. subst m.
    destruct (utime_error (node_attrs md)); [discriminate|].
    inversion H; subst. destruct i as [|i]; cbn in *; [|assumption].
    inversion Hi; subst. contradiction.
  - destruct (utime_entries name t es) as [es''|e]; [|discriminate].
    inversion H; subst. destruct i as [|i]; cbn in *; [assumption|].
    now apply (IH es'' eq_refl i n nd).
Qed.

Lemma step_entries_other (p filename : string) (es : list (string * node)) :
  parse_filename filename = NotFound ->
  forall (i : nat) (nd : node),
    nth_error es i = Some (filename, nd) ->
    nth_error (step_entries p es) i = Some (filename, nd).
Proof.
  intros Hnone i nd Hi. unfold step_entries, stamp.
  destruct (parse_filename (os_path_basename p)) as [[dt|]|e] eqn:Ep;
    try assumption.
  destruct (utime_entries _ _ es) as [es'|e] eqn:E; [|assumption].
  apply (utime_entries_other _ _ _ _ E); [|assumption].
  intros ->. rewrite Ep in Hnone. discriminate.
Qed.

Lemma run_target_other (filename : string) (ps : list string) :
  parse_filename filename = NotFound ->
  forall (tg : option node) (i : nat) (nd : node),
    nth_error (target_entries tg) i = Some (filename, nd) ->
    nth_error (target_entries (run_target ps tg)) i = Some (filename, nd).
Proof.
  intros Hnone. induction ps as [|p ps IH]; intros tg i nd Hi; [assumption|].
  cbn [run_target]. destruct (parse_filename (os_path_basename p));
    [|assumption].
  apply IH. destruct tg as [[a0|a0 es]|]; try assumption.
  now apply step_entries_other.
Qed.

(** C3: a file name that neither pattern matches parses to NotFound; the
    iteration that meets it adds one to the failure count, leaves the
    success count as it is and does not touch the file system; and after a
    whole run the file is where it was, with the times it had. *)
Theorem C3_unmatched_name_is_skipped_and_untouched (filename : string) :
  re_search pxl_pattern filename = None ->
  re_search lv_pattern filename = None ->
  parse_filename filename = NotFound
  /\ (forall (verbose : Z) (filepath : string) (s f : nat) (w : world),
        os_path_basename filepath = filename ->
        fst (process_file verbose filepath (s, f) w) = Ok (s, S f)
        /\ target (snd (process_file verbose filepath (s, f) w)) = target w)
  /\ (forall (directory : string) (verbose : Z) (w : world)
             (i : nat) (nd : node),
        nth_error (entries_of w) i = Some (filename, nd) ->
        nth_error
          (entries_of (snd (process_directory directory verbose w))) i
        = Some (filename, nd)).
Proof.
  intros Hpxl Hlv.
  assert (parse_filename filename = NotFound) as Hnone
    by (unfold parse_filename; now rewrite Hpxl, Hlv).
  split; [assumption|]. split.
  - intros verbose filepath s f w Hbase.
    destruct (process_file_sem verbose filepath (s, f) w) as [-> ->].
    unfold step_counts, step_target, step_entries.
    rewrite Hbase, Hnone. split; [reflexivity|].
    now destruct (target w) as [[?|? ?]|].
  - intros directory verbose w i nd Hi.
    unfold entries_of.
    destruct (process_directory_sem directory verbose w) as [_ ->].
    now apply run_target_other.
Qed.

Lemma C3_unmatched_name_is_skipped_and_untouched_witness :
  parse_filename "random_video.mp4" = NotFound
  /\ (forall (verbose : Z) (filepath : string) (s f : nat) (w : world),
        os_path_basename filepath = "random_video.mp4" ->
        fst (process_file verbose filepath (s, f) w) = Ok (s, S f)
        /\ target (snd (process_file verbose filepath (s, f) w)) = target w)
  /\ (forall (directory : string) (verbose : Z) (w : world)
             (i : nat) (nd : node),
        nth_error (entries_of w) i = Some ("random_video.mp4", nd) ->
        nth_error
          (entries_of (snd (process_directory directory verbose w))) i
        = Some ("random_video.mp4", nd)).
Proof.
  apply (C3_unmatched_name_is_skipped_and_untouched "random_video.mp4");
    reflexivity.
Defined.

(** The example run of the specification: three successes, one failure, and
    the text file is not visited. *)
Example spec_example_run :
  fst (process_directory "photos" 0 spec_example_dir) = Ok (3%nat, 1%nat)
  /\ visited "photos" spec_example_dir
     = ["photos/PXL_20230615_143022123.mp4"; "photos/lv_0_20230615143022.mp4";
        "photos/random_video.mp4"; "photos/PXL_20230615_143022123(1).jpg"].
Proof. split; reflexivity. Qed.

(** ** Out-of-range fields *)

(** C1 (the program does otherwise): a well-formed token with a field
    outside the calendar ranges does not give NotFound.  The [ValueError] of
    the datetime constructor leaves [parse_filename], then
    [process_directory], then [main]: the run stops at that file, with no
    tally and no summary, and the files after it are not processed. *)
Theorem C1_out_of_range_token_raises :
  parse_filename "PXL_20231301_120000000.mp4" = Raise ValueError
  /\ parse_filename "PXL_20230615_240000000.mp4" = Raise ValueError
  /\ parse_filename "lv_0_20231301120000.mp4" = Raise ValueError
  /\ fst (process_directory "photos" 0 month13_dir) = Raise ValueError
  /\ fst (main "photos" 0 month13_dir) = Raise ValueError
  /\ stdout (snd (main "photos" 0 month13_dir))
     = ["Processing directory: photos";
        "Expected timezone in the filenames: UTC" ++ newline]
  /\ find_entry "lv_0_20230615143022.mp4"
       (entries_of (snd (main "photos" 0 month13_dir)))
     = Some (File untouched).
Proof. repeat split; reflexivity. Qed.

(** ** update_file_modification_time *)

Lemma utime_entries_found (name : string) (t : Z * Z)
    (es : list (string * node)) (nd : node) :
  find_entry name es = Some nd ->
  utime_error (node_attrs nd) = None ->
  exists es', utime_entries name t es = Ok es'
              /\ find_entry name es' = Some (touch t nd).
Proof.
  induction es as [|[n md] es IH]; intros Hfind Hok;
    cbn [find_entry utime_entries] in *; [discriminate|].
  destruct (n =? name)%string eqn:E.
  - inversion Hfind; subst md. rewrite Hok.
    eexists. split; [reflexivity|]. cbn [find_entry]. now rewrite E.
  - destruct (IH Hfind Hok) as (es' & -> & Hfind').
    eexists. split; [reflexivity|]. cbn [find_entry]. now rewrite E.
Qed.

(** C8: [update_file_modification_time] turns the timestamp into its POSIX
    value - the days since 1970-01-01 times 86400 plus the seconds of the
    day, with the microseconds kept - and, on a file whose times may be set,
    makes that one value both the access time and the modification time of
    the file, printing nothing and returning True. *)
Theorem C8_update_sets_both_times_to_the_epoch_value
    (filepath : string) (dt : datetime) (w : world) (nd : node) :
  find_entry (os_path_basename filepath) (entries_of w) = Some nd ->
  utime_error (node_attrs nd) = None ->
  timestamp dt
  = ((toordinal dt - toordinal (mk_datetime 1970 1 1 0 0 0 0 UTC)) * 86400
     + hour dt * 3600 + minute dt * 60 + second dt) * 1000000
    + microsecond dt
  /\ fst (update_file_modification_time filepath dt w) = Ok true
  /\ stdout (snd (update_file_modification_time filepath dt w)) = stdout w
  /\ exists nd',
       find_entry (os_path_basename filepath)
         (entries_of (snd (update_file_modification_time filepath dt w)))
       = Some nd'
       /\ atime (node_attrs nd') = timestamp dt
       /\ mtime (node_attrs nd') = timestamp dt.
Proof.
  intros Hfind Hok. split.
  - unfold timestamp. change (toordinal (mk_datetime 1970 1 1 0 0 0 0 UTC))
      with EPOCH_ORDINAL. lia.
  - unfold update_file_modification_time. rewrite os_utime_entries.
    unfold entries_of in Hfind.
    destruct (target w) as [[a|a es]|]; try discriminate.
    destruct (utime_entries_found _ (timestamp dt, timestamp dt) _ _
                Hfind Hok)
      as (es' & -> & Hfind').
    cbn [fst snd stdout entries_of target].
    repeat split. exists (touch (timestamp dt, timestamp dt) nd).
    split; [assumption|]. destruct nd; split; reflexivity.
Qed.

Lemma C8_update_sets_both_times_to_the_epoch_value_witness :
  timestamp (mk_datetime 2023 6 15 14 30 22 123000 UTC) = 1686839422123000
  /\ exists nd',
       find_entry "PXL_20230615_143022123.mp4"
         (entries_of
            (snd (update_file_modification_time
                    "photos/PXL_20230615_143022123.mp4"
                    (mk_datetime 2023 6 15 14 30 22 123000 UTC)
                    spec_example_dir)))
       = Some nd'
       /\ atime (node_attrs nd') = 1686839422123000
       /\ mtime (node_attrs nd') = 1686839422123000.
Proof.
  split; [reflexivity|].
  apply (C8_update_sets_both_times_to_the_epoch_value
           "photos/PXL_20230615_143022123.mp4"
           (mk_datetime 2023 6 15 14 30 22 123000 UTC)
           spec_example_dir (File untouched)); reflexivity.
Defined.

(** When [os.utime] is refused the error is printed with the path, the
    function returns False and the file system is as before. *)
Lemma update_refused (filepath : string) (dt : datetime) (w : world)
    (nd : node) (msg : string) :
  find_entry (os_path_basename filepath) (entries_of w) = Some nd ->
  utime_error (node_attrs nd) = Some msg ->
  update_file_modification_time filepath dt w
  = (Ok false,
     mk_world (target w)
       (List.app (stdout w) ["Error updating " ++ filepath ++ ": " ++ msg])).
Proof.
  intros Hfind Herr.
  unfold update_file_modification_time. rewrite os_utime_entries.
  destruct w as [tg out]. unfold entries_of in Hfind. cbn [target stdout] in *.
  destruct tg as [[a|a es]|]; try discriminate.
  assert (utime_entries (os_path_basename filepath)
            (timestamp dt, timestamp dt) es
          = Raise (OSError msg)) as ->; [|reflexivity].
  induction es as [|[n md] es IH]; cbn [find_entry utime_entries] in *;
    [discriminate|].
  destruct (n =? os_path_basename filepath)%string.
  - inversion Hfind; subst md. now rewrite Herr.
  - now rewrite (IH Hfind).
Qed.

(** ** main *)

Lemma os_path_isdir_false (directory : string) (w : world) :
  os_path_isdir directory w = false <->
  directory = "" \/ target w = None \/ exists a, target w = Some (File a).
Proof.
  unfold os_path_isdir. split.
  - intros H. destruct (String.eqb_spec directory ""); [now left | right].
    destruct (target w) as [[a|a es]|]; [right; now exists a | discriminate | now left].
  - intros [-> | [-> | [a ->]]]; [reflexivity | | ]; apply andb_false_r.
Qed.

(** C9: when the path given to the program does not exist or is not a
    directory, [main] prints the error line and returns: nothing is
    enumerated or processed, the file system is as it was, and no summary
    with counts is printed. *)
Theorem C9_invalid_directory_stops_before_the_scan
    (directory : string) (verbose : Z) (w : world) :
  os_path_isdir directory w = false ->
  main directory verbose w
  = (Ok tt,
     mk_world (target w)
       (List.app (stdout w)
          ["Error: '" ++ directory ++ "' is not a valid directory"])).
Proof. intros H. unfold main. now rewrite H. Qed.

Lemma C9_invalid_directory_stops_before_the_scan_witness :
  main "holiday" 2 no_such_dir
  = (Ok tt,
     mk_world None ["Error: 'holiday' is not a valid directory"]).
Proof.
  apply (C9_invalid_directory_stops_before_the_scan "holiday" 2 no_such_dir).
  reflexivity.
Defined.

(** ** Running twice *)

Lemma stamp_nil (name : string) (t : Z * Z) : stamp name t [] = [].
Proof. reflexivity. Qed.

Lemma stamp_cons (name : string) (t : Z * Z) (n : string) (nd : node)
    (es : list (string * node)) :
  stamp name t ((n, nd) :: es)
  = if (n =? name)%string then
      match utime_error (node_attrs nd) with
      | None => (n, touch t nd) :: es
      | Some _ => (n, nd) :: es
      end
    else (n, nd) :: stamp name t es.
Proof.
  unfold stamp. cbn [utime_entries].
  destruct (n =? name)%string.
  - now destruct (utime_error (node_attrs nd)).
  - now destruct (utime_entries name t es).
Qed.

Lemma touch_touch (t : Z * Z) (nd : node) : touch t (touch t nd) = touch t nd.
Proof. destruct nd; reflexivity. Qed.

Lemma utime_error_touch (t : Z * Z) (nd : node) :
  utime_error (node_attrs (touch t nd)) = utime_error (node_attrs nd).
Proof. destruct nd; reflexivity. Qed.

Lemma stamp_idempotent (name : string) (t : Z * Z) (es : list (string * node)) :
  stamp name t (stamp name t es) = stamp name t es.
Proof.
  induction es as [|[n nd] es IH]; [reflexivity|].
  rewrite stamp_cons. destruct (n =? name)%string eqn:E.
  - destruct (utime_error (node_attrs nd)) eqn:Eu;
      rewrite stamp_cons, E; [now rewrite Eu|].
    now rewrite utime_error_touch, Eu, touch_touch.
  - now rewrite stamp_cons, E, IH.
Qed.

Lemma stamp_commute (n1 n2 : string) (t1 t2 : Z * Z)
    (es : list (string * node)) :
  n1 <> n2 ->
  stamp n1 t1 (stamp n2 t2 es) = stamp n2 t2 (stamp n1 t1 es).
Proof.
  intros Hne. induction es as [|[n nd] es IH]; [reflexivity|].
  rewrite (stamp_cons n2), (stamp_cons n1).
  destruct (n =? n2)%string eqn:E2, (n =? n1)%string eqn:E1.
  - apply String.eqb_eq in E1, E2. congruence.
  - destruct (utime_error (node_attrs nd)) eqn:Eu;
      rewrite !stamp_cons, E1, E2, ?Eu; reflexivity.
  - destruct (utime_error (node_attrs nd)) eqn:Eu;
      rewrite !stamp_cons, E1, E2, ?Eu; reflexivity.
  - now rewrite !stamp_cons, E1, E2, IH.
Qed.

Lemma step_entries_idempotent (p : string) (es : list (string * node)) :
  step_entries p (step_entries p es) = step_entries p es.
Proof.
  unfold step_entries. destruct (parse_filename _) as [[dt|]|e];
    try reflexivity.
  apply stamp_idempotent.
Qed.

Lemma step_entries_commute (p q : string) (es : list (string * node)) :
  step_entries p (step_entries q es) = step_entries q (step_entries p es).
Proof.
  unfold step_entries.
  destruct (parse_filename (os_path_basename p)) as [[dp|]|ep] eqn:Ep;
    destruct (parse_filename (os_path_basename q)) as [[dq|]|eq] eqn:Eq;
    try reflexivity.
  destruct (string_dec (os_path_basename p) (os_path_basename q)) as [Heq|Hne].
  - rewrite Heq in Ep. rewrite Ep in Eq. inversion Eq; subst.
    now rewrite Heq.
  - now apply stamp_commute.
Qed.

Lemma step_target_idempotent (p : string) (tg : option node) :
  step_target p (step_target p tg) = step_target p tg.
Proof.
  destruct tg as [[a|a es]|]; try reflexivity.
  cbn [step_target]. now rewrite step_entries_idempotent.
Qed.

Lemma step_target_commute (p q : string) (tg : option node) :
  step_target p (step_target q tg) = step_target q (step_target p tg).
Proof.
  destruct tg as [[a|a es]|]; try reflexivity.
  cbn [step_target]. now rewrite step_entries_commute.
Qed.

Section Settled.
Variables (A X : Type) (f : A -> X -> A).
Hypothesis f_idempotent : forall a x, f (f a x) x = f a x.
Hypothesis f_commute : forall a x y, f (f a x) y = f (f a y) x.

Lemma fold_left_push (xs : list X) :
  forall a x, f (fold_left f xs a) x = fold_left f xs (f a x).
Proof.
  induction xs as [|y xs IH]; intros a x; [reflexivity|].
  cbn [fold_left]. now rewrite IH, f_commute.
Qed.

Lemma fold_left_settled (xs : list X) :
  forall a, fold_left f xs (fold_left f xs a) = fold_left f xs a.
Proof.
  induction xs as [|x xs IH]; intros a; [reflexivity|].
  cbn [fold_left].
  now rewrite fold_left_push, f_idempotent, IH.
Qed.
End Settled.

Lemma run_target_executed (ps : list string) :
  forall tg,
    run_target ps tg
    = fold_left (fun tg0 p => step_target p tg0) (executed ps) tg.
Proof.
  induction ps as [|p ps IH]; intros tg; [reflexivity|].
  cbn [run_target executed].
  destruct (parse_filename (os_path_basename p)); [apply IH | reflexivity].
Qed.

Lemma run_target_idempotent (ps : list string) (tg : option node) :
  run_target ps (run_target ps tg) = run_target ps tg.
Proof.
  rewrite !run_target_executed.
  apply fold_left_settled; intros.
  - apply step_target_idempotent.
  - apply step_target_commute.
Qed.

Lemma utime_entries_same_perms (name : string) (t t' : Z * Z)
    (es : list (string * node)) :
  forall es', perms es = perms es' ->
    match utime_entries name t es, utime_entries name t' es' with
    | Ok _, Ok _ => True
    | Raise e, Raise e' => e = e'
    | _, _ => False
    end.
Proof.
  induction es as [|[n nd] es IH]; intros [|[n' nd'] es'] H;
    try discriminate; cbn [utime_entries]; [reflexivity|].
  cbn in H. injection H as Hn Hu Hrest. subst n'. rewrite <- Hu.
  destruct (n =? name)%string.
  - now destruct (utime_error (node_attrs nd)).
  - specialize (IH es' Hrest).
    destruct (utime_entries name t es), (utime_entries name t' es');
      cbn [rbind]; auto.
Qed.

Lemma same_perms_refl (tg : option node) : same_perms tg tg.
Proof. now destruct tg as [[?|? ?]|]. Qed.

Lemma same_perms_step (p : string) (tg tg' : option node) :
  same_perms tg tg' -> same_perms (step_target p tg) (step_target p tg').
Proof.
  destruct tg as [[a|a es]|], tg' as [[a'|a' es']|]; cbn; auto.
  intros H. now rewrite !step_entries_perms.
Qed.

Lemma same_perms_step_l (p : string) (tg : option node) :
  same_perms (step_target p tg) tg.
Proof.
  destruct tg as [[a|a es]|]; cbn; auto. apply step_entries_perms.
Qed.

Lemma same_perms_trans (a b c : option node) :
  same_perms a b -> same_perms b c -> same_perms a c.
Proof.
  destruct a as [[?|? ?]|], b as [[?|? ?]|], c as [[?|? ?]|]; cbn;
    try tauto; congruence.
Qed.

Lemma step_counts_same_perms (p : string) (tg tg' : option node)
    (c : nat * nat) :
  same_perms tg tg' -> step_counts p tg c = step_counts p tg' c.
Proof.
  intros H. unfold step_counts.
  destruct (parse_filename _) as [[dt|]|e]; try reflexivity.
  destruct tg as [[a|a es]|], tg' as [[a'|a' es']|]; cbn in H;
    try contradiction; try reflexivity.
  pose proof (utime_entries_same_perms (os_path_basename p)
                (timestamp dt, timestamp dt) (timestamp dt, timestamp dt)
                es es' H) as Hsame.
  destruct (utime_entries _ _ es), (utime_entries _ _ es');
    try contradiction; reflexivity.
Qed.

Lemma run_counts_same_perms (ps : list string) :
  forall (tg tg' : option node) (c : nat * nat),
    same_perms tg tg' -> run_counts ps tg c = run_counts ps tg' c.
Proof.
  induction ps as [|p ps IH]; intros tg tg' c H; [reflexivity|].
  cbn [run_counts]. rewrite (step_counts_same_perms p tg tg' c H).
  destruct (step_counts p tg' c); [|reflexivity].
  cbn [rbind]. apply IH. now apply same_perms_step.
Qed.

Lemma run_target_same_perms (ps : list string) :
  forall tg, same_perms (run_target ps tg) tg.
Proof.
  induction ps as [|p ps IH]; intros tg; [apply same_perms_refl|].
  cbn [run_target]. destruct (parse_filename _); [|apply same_perms_refl].
  eapply same_perms_trans; [apply IH | apply same_perms_step_l].
Qed.

Lemma visited_listdir (directory : string) (w w' : world) :
  listdir w' = listdir w -> visited directory w' = visited directory w.
Proof.
  intros H. unfold visited. apply flat_map_ext.
  intros ext. now apply glob_glob_listdir.
Qed.

Lemma process_directory_listdir (directory : string) (v : Z) (w : world) :
  listdir (snd (process_directory directory v w)) = listdir w.
Proof.
  rewrite process_directory_visited. apply for_each_listdir.
Qed.

(** C6: a second run right after a first, on the same directory and at the
    same level, has the outcome of the first (the same two counts) and
    leaves every file with the times the first run gave it: it changes
    nothing in the file system. *)
Theorem C6_second_run_is_a_no_op
    (directory : string) (verbose : Z) (w : world) :
  fst (process_directory directory verbose
         (snd (process_directory directory verbose w)))
  = fst (process_directory directory verbose w)
  /\ target (snd (process_directory directory verbose
                    (snd (process_directory directory verbose w))))
     = target (snd (process_directory directory verbose w)).
Proof.
  set (run1 := process_directory directory verbose w).
  destruct (process_directory_sem directory verbose (snd run1)) as [-> ->].
  rewrite (visited_listdir directory w (snd run1))
    by apply process_directory_listdir.
  subst run1.
  destruct (process_directory_sem directory verbose w) as [-> ->].
  split.
  - apply run_counts_same_perms, run_target_same_perms.
  - apply run_target_idempotent.
Qed.

Example spec_example_twice :
  let run1 := process_directory "photos" 0 spec_example_dir in
  let run2 := process_directory "photos" 0 (snd run1) in
  fst run1 = Ok (3%nat, 1%nat) /\ fst run2 = Ok (3%nat, 1%nat)
  /\ snd run2 = snd run1.
Proof. repeat split; reflexivity. Qed.

(** ** Paths *)










(** ** fnmatch on the patterns of the program *)



(** ** The files a run visits *)











(** ** No recursion: what is below an entry stays as it is *)

Lemma utime_entries_skeleton (name : string) (t : Z * Z)
    (es es' : list (string * node)) :
  utime_entries name t es = Ok es' -> skeleton es' = skeleton es.
Proof.
  revert es'. induction es as [|[n nd] es IH]; intros es' H;
    cbn [utime_entries] in H; [discriminate|].
  destruct (n =? name)%string.
  - destruct (utime_error (node_attrs nd)); [discriminate|].
    inversion H; subst. cbn. f_equal. f_equal. now destruct nd.
  - destruct (utime_entries name t es) as [es''|e]; [|discriminate].
    inversion H; subst. cbn. f_equal. now apply IH.
Qed.



(** ** Entries that are not visited do not count *)

















Example extension_case_matters :
  selected ["a.mp4"; "b.MP4"; "c.mp4.txt"; "d.jpg"; ".e.jpg"; "f.mkv"]
  = ["a.mp4"; "f.mkv"; "d.jpg"].
Proof. reflexivity. Qed.

(** ** Every outcome of parse_filename *)

Lemma eat_literal_spec (text s rest : string) :
  eat_literal text s = Some rest -> s = text ++ rest.
Proof.
  revert s. induction text as [|c text IH]; intros s H; cbn [eat_literal] in H.
  - now inversion H.
  - destruct s as [|d s]; [discriminate|].
    destruct (Ascii.eqb_spec c d) as [-> | _]; [|discriminate].
    cbn [append]. now rewrite (IH s H).
Qed.

Lemma eat_digits_spec (n : nat) (s g rest : string) :
  eat_digits n s = Some (g, rest) -> s = g ++ rest /\ digits n g = true.
Proof.
  unfold digits. revert s g.
  induction n as [|n IH]; intros s g H; cbn [eat_digits] in H.
  - inversion H; subst. now split.
  - destruct s as [|d s]; [discriminate|].
    destruct (is_digit d) eqn:Ed; [|discriminate].
    destruct (eat_digits n s) as [[g' rest']|] eqn:E; [|discriminate].
    inversion H; subst. destruct (IH _ _ E) as [-> Hg].
    apply andb_true_iff in Hg as [Hlen Hall].
    split; [reflexivity|]. cbn. now rewrite Hlen, Ed, Hall.
Qed.

Ltac eat_all H :=
  repeat match type of H with
  | context [eat_literal ?t ?s] =>
      let E := fresh "E" in
      destruct (eat_literal t s) eqn:E; [|cbn in H; discriminate H];
      apply eat_literal_spec in E; subst s
  | context [eat_digits ?n ?s] =>
      let E := fresh "E" in
      let g := fresh "g" in
      let r := fresh "r" in
      destruct (eat_digits n s) as [[g r]|] eqn:E;
      [|cbn in H; discriminate H];
      apply eat_digits_spec in E; destruct E as [? ?]; subst s
  end.

Lemma re_match_pxl_inv (s : string) (gs : list string) :
  re_match pxl_pattern s = Some gs ->
  exists Y Mo D h mi sec ms post,
    s = pxl_token Y Mo D h mi sec ms ++ post
    /\ well_formed (PxlFields Y Mo D h mi sec ms) = true.
Proof.
  unfold pxl_pattern. cbn [re_match]. intros H. eat_all H.
  match goal with
  | |- exists Y Mo D h mi sec ms post,
         "PXL_" ++ ?a ++ ?b ++ ?c ++ "_" ++ ?d ++ ?e ++ ?f ++ ?g ++ ?p = _ /\ _ =>
      exists a, b, c, d, e, f, g, p
  end.
  split.
  - unfold pxl_token. now rewrite !append_assoc.
  - cbn [well_formed].
    repeat match goal with
    | Hd : digits _ _ = true |- _ => rewrite Hd; clear Hd
    end.
    reflexivity.
Qed.

Lemma re_match_lv_inv (s : string) (gs : list string) :
  re_match lv_pattern s = Some gs ->
  exists Y Mo D h mi sec post,
    s = lv_token Y Mo D h mi sec ++ post
    /\ well_formed (LvFields Y Mo D h mi sec) = true.
Proof.
  unfold lv_pattern. cbn [re_match]. intros H. eat_all H.
  match goal with
  | |- exists Y Mo D h mi sec post,
         "lv_0_" ++ ?a ++ ?b ++ ?c ++ ?d ++ ?e ++ ?f ++ ?p = _ /\ _ =>
      exists a, b, c, d, e, f, p
  end.
  split.
  - unfold lv_token. now rewrite !append_assoc.
  - cbn [well_formed].
    repeat match goal with
    | Hd : digits _ _ = true |- _ => rewrite Hd; clear Hd
    end.
    reflexivity.
Qed.

(** A file name either matches neither pattern, or is a token the matcher
    uses with text around it. *)
Lemma filename_cases (filename : string) :
  (re_search pxl_pattern filename = None
   /\ re_search lv_pattern filename = None)
  \/ exists pre tf post,
       filename = pre ++ token_text tf ++ post
       /\ well_formed tf = true /\ first_match pre tf post = true.
Proof.
  destruct (re_search pxl_pattern filename) as [gs|] eqn:Epxl.
  - right. apply re_search_leftmost in Epxl
      as (pre & rest & -> & Hpre & Hrest).
    apply re_match_pxl_inv in Hrest
      as (Y & Mo & D & h & mi & sec & ms & post & -> & Hwf).
    exists pre, (PxlFields Y Mo D h mi sec ms), post. now repeat split.
  - destruct (re_search lv_pattern filename) as [gs|] eqn:Elv; [|now left].
    right. apply re_search_leftmost in Elv
      as (pre & rest & -> & Hpre & Hrest).
    apply re_match_lv_inv in Hrest
      as (Y & Mo & D & h & mi & sec & post & -> & Hwf).
    exists pre, (LvFields Y Mo D h mi sec), post.
    split; [reflexivity|]. split; [assumption|].
    cbn [first_match token_text]. now rewrite Epxl, Hpre.
Qed.

Lemma valid_fields_dec (tf : token_fields) :
  valid_fields tf \/ ~ valid_fields tf.
Proof.
  destruct tf; cbn [valid_fields]; unfold valid_calendar; lia.
Qed.

Lemma token_is_found (pre post : string) (tf : token_fields) :
  well_formed tf = true ->
  re_search pxl_pattern (pre ++ token_text tf ++ post) = None ->
  re_search lv_pattern (pre ++ token_text tf ++ post) = None ->
  False.
Proof.
  intros Hwf Hpxl Hlv.
  destruct tf as [Y Mo D h mi s ms | Y Mo D h mi s];
    cbn [well_formed token_text] in *; split_andb.
  - rewrite re_search_none in Hpxl.
    specialize (Hpxl pre _ eq_refl).
    now rewrite re_match_pxl_token in Hpxl.
  - rewrite re_search_none in Hlv.
    specialize (Hlv pre _ eq_refl).
    now rewrite re_match_lv_token in Hlv.
Qed.

Lemma parse_filename_not_found (filename : string) :
  parse_filename filename = NotFound <->
  re_search pxl_pattern filename = None
  /\ re_search lv_pattern filename = None.
Proof.
  split.
  - intros H. destruct (filename_cases filename)
      as [Hnone | (pre & tf & post & -> & Hwf & Hfirst)]; [assumption|].
    rewrite parse_filename_first_match in H by assumption.
    destruct tf; destruct (datetime_new _ _ _ _ _ _ _ _); discriminate.
  - intros [Hpxl Hlv]. unfold parse_filename. now rewrite Hpxl, Hlv.
Qed.

(** X1: [parse_filename] returns NotFound exactly for the file names that
    hold no token of either format, at any place in the name. *)
Theorem X1_not_found_iff_no_token_anywhere (filename : string) :
  parse_filename filename = NotFound <->
  forall pre tf post,
    filename = pre ++ token_text tf ++ post -> well_formed tf = false.
Proof.
  rewrite parse_filename_not_found. split.
  - intros [Hpxl Hlv] pre tf post ->.
    destruct (well_formed tf) eqn:Hwf; [|reflexivity].
    destruct (token_is_found pre post tf Hwf Hpxl Hlv).
  - intros Hno. destruct (filename_cases filename)
      as [Hnone | (pre & tf & post & Heq & Hwf & _)]; [assumption|].
    rewrite (Hno pre tf post Heq) in Hwf. discriminate.
Qed.

(** X2: a timestamp that [parse_filename] returns is never made up: it is
    returned exactly when the token the matcher uses is well formed with
    fields in the calendar ranges, and it is the one those digits spell, so
    it is a calendar date and time in UTC whose microseconds are a whole
    number of milliseconds. *)
Theorem X2_timestamp_iff_valid_token_in_the_name
    (filename : string) (dt : datetime) :
  (parse_filename filename = Ok (Some dt) <->
   exists pre tf post,
     filename = pre ++ token_text tf ++ post
     /\ well_formed tf = true /\ first_match pre tf post = true
     /\ valid_fields tf /\ dt = spelled tf)
  /\ (parse_filename filename = Ok (Some dt) ->
      valid_calendar (year dt) (month dt) (day dt)
        (hour dt) (minute dt) (second dt)
      /\ tzinfo dt = UTC
      /\ exists ms, 0 <= ms <= 999 /\ microsecond dt = ms * 1000).
Proof.
  assert (parse_filename filename = Ok (Some dt) ->
          exists pre tf post,
            filename = pre ++ token_text tf ++ post
            /\ well_formed tf = true /\ first_match pre tf post = true
            /\ valid_fields tf /\ dt = spelled tf) as Hinv.
  { intros H. destruct (filename_cases filename)
      as [[Hpxl Hlv] | (pre & tf & post & -> & Hwf & Hfirst)].
    - unfold parse_filename in H. rewrite Hpxl, Hlv in H. discriminate.
    - exists pre, tf, post. repeat split; try assumption.
      + destruct (valid_fields_dec tf) as [Hv | Hbad]; [assumption|].
        rewrite parse_filename_invalid_token in H by assumption.
        discriminate.
      + destruct (valid_fields_dec tf) as [Hv | Hbad].
        * rewrite parse_filename_valid_token in H by assumption.
          now inversion H.
        * rewrite parse_filename_invalid_token in H by assumption.
          discriminate. }
  split; [split; [exact Hinv|] |].
  - intros (pre & tf & post & -> & Hwf & Hfirst & Hv & ->).
    now apply parse_filename_valid_token.
  - intros H. destruct (Hinv H) as (pre & tf & post & _ & Hwf & _ & Hv & ->).
    destruct tf as [Y Mo D h mi s ms | Y Mo D h mi s];
      cbn [well_formed valid_fields spelled year month day hour minute
           second microsecond tzinfo] in *; split_andb.
    + split; [assumption|]. split; [reflexivity|].
      exists (decimal ms). split; [|reflexivity].
      pose proof (decimal_bounds 3 ms ltac:(assumption)) as Hms.
      change (10 ^ Z.of_nat 3) with 1000 in Hms. lia.
    + split; [assumption|]. split; [reflexivity|].
      exists 0. split; [lia | reflexivity].
Qed.

(** X3: the only error [parse_filename] raises is [ValueError], and it
    raises it exactly when the token the matcher uses is well formed but has
    a field outside the calendar ranges (a month 13, a 30th of February, a
    year 0000, an hour 24): such a name is not reported as NotFound, and a
    valid token later in the name is not looked for. *)
Theorem X3_raises_iff_used_token_out_of_range (filename : string) :
  (forall e, parse_filename filename = Raise e -> e = ValueError)
  /\ (parse_filename filename = Raise ValueError <->
      exists pre tf post,
        filename = pre ++ token_text tf ++ post
        /\ well_formed tf = true /\ first_match pre tf post = true
        /\ ~ valid_fields tf).
Proof.
  assert (forall e, parse_filename filename = Raise e ->
            e = ValueError
            /\ exists pre tf post,
                 filename = pre ++ token_text tf ++ post
                 /\ well_formed tf = true /\ first_match pre tf post = true
                 /\ ~ valid_fields tf) as Hinv.
  { intros e H. destruct (filename_cases filename)
      as [[Hpxl Hlv] | (pre & tf & post & -> & Hwf & Hfirst)].
    - unfold parse_filename in H. rewrite Hpxl, Hlv in H. discriminate.
    - destruct (valid_fields_dec tf) as [Hv | Hbad].
      + rewrite parse_filename_valid_token in H by assumption. discriminate.
      + rewrite parse_filename_invalid_token in H by assumption.
        split; [now inversion H|]. exists pre, tf, post. now repeat split. }
  split; [intros e H; now destruct (Hinv e H)|]. split.
  - intros H. now destruct (Hinv _ H).
  - intros (pre & tf & post & -> & Hwf & Hfirst & Hbad).
    now apply parse_filename_invalid_token.
Qed.

(** ** update_file_modification_time: failures and frame *)

Lemma utime_entries_can_set_times (name : string) (t : Z * Z)
    (es : list (string * node)) :
  match utime_entries name t es with
  | Ok _ => can_set_times name es = true
  | Raise _ => can_set_times name es = false
  end.
Proof.
  unfold can_set_times.
  induction es as [|[n nd] es IH]; cbn [utime_entries find_entry];
    [reflexivity|].
  destruct (n =? name)%string.
  - now destruct (utime_error (node_attrs nd)).
  - now destruct (utime_entries name t es).
Qed.



(** X5: [update_file_modification_time] touches one file at most.  Every
    entry with another name than the path's is at its place unchanged, and
    of all entries the names, their order, what is below them and whether
    their times may be set stay as they were. *)
Theorem X5_update_leaves_every_other_file_alone
    (filepath : string) (dt : datetime) (w : world) :
  (forall (i : nat) (n : string) (nd : node),
      n <> os_path_basename filepath ->
      nth_error (entries_of w) i = Some (n, nd) ->
      nth_error
        (entries_of (snd (update_file_modification_time filepath dt w))) i
      = Some (n, nd))
  /\ listdir (snd (update_file_modification_time filepath dt w)) = listdir w
  /\ skeleton (entries_of (snd (update_file_modification_time filepath dt w)))
     = skeleton (entries_of w)
  /\ perms (entries_of (snd (update_file_modification_time filepath dt w)))
     = perms (entries_of w).
Proof.
  unfold update_file_modification_time. cbv zeta. rewrite os_utime_entries.
  destruct w as [tg out]. unfold listdir, entries_of. cbn [target stdout].
  destruct tg as [[a|a es]|]; try (cbn; now repeat split).
  destruct (utime_entries _ _ es) as [es'|e] eqn:E; cbn;
    [|now repeat split].
  split; [|split; [|split]].
  - intros i n nd Hn Hi. now apply (utime_entries_other _ _ _ _ E).
  - now apply perms_names, (utime_entries_perms _ _ _ _ E).
  - now apply (utime_entries_skeleton _ _ _ _ E).
  - now apply (utime_entries_perms _ _ _ _ E).
Qed.

(** ** The tally in closed form *)

Lemma parse_filename_raises_value_error (filename : string) (e : exn) :
  parse_filename filename = Raise e -> e = ValueError.
Proof.
  intros H. destruct (filename_cases filename)
    as [[Hpxl Hlv] | (pre & tf & post & -> & Hwf & Hfirst)].
  - unfold parse_filename in H. rewrite Hpxl, Hlv in H. discriminate.
  - destruct (valid_fields_dec tf) as [Hv | Hbad].
    + rewrite parse_filename_valid_token in H by assumption. discriminate.
    + rewrite parse_filename_invalid_token in H by assumption.
      now inversion H.
Qed.

Lemma find_entry_perms (name : string) (es es' : list (string * node)) :
  perms es = perms es' ->
  option_map (fun nd => utime_error (node_attrs nd)) (find_entry name es)
  = option_map (fun nd => utime_error (node_attrs nd)) (find_entry name es').
Proof.
  revert es'. induction es as [|[n nd] es IH]; intros [|[n' nd'] es'] H;
    try discriminate; [reflexivity|].
  cbn in H. injection H as Hn Hu Hrest. subst n'.
  cbn [find_entry]. destruct (n =? name)%string.
  - cbn. now rewrite Hu.
  - now apply IH.
Qed.

Lemma can_set_times_perms (name : string) (es es' : list (string * node)) :
  perms es = perms es' -> can_set_times name es = can_set_times name es'.
Proof.
  intros H. apply (find_entry_perms name) in H. unfold can_set_times.
  destruct (find_entry name es), (find_entry name es'); cbn in H;
    try discriminate; [|reflexivity].
  now inversion H.
Qed.

Lemma updates_perms (p : string) (es es' : list (string * node)) :
  perms es = perms es' -> updates es p = updates es' p.
Proof.
  intros H. unfold updates.
  destruct (parse_filename _) as [[dt|]|e]; try reflexivity.
  now apply can_set_times_perms.
Qed.

Lemma step_counts_updates (p : string) (tg : option node) (c : nat * nat) :
  step_counts p tg c
  = if raises p then Raise ValueError
    else if updates (target_entries tg) p then Ok (S (fst c), snd c)
    else Ok (fst c, S (snd c)).
Proof.
  unfold step_counts, raises, updates.
  destruct (parse_filename (os_path_basename p)) as [[dt|]|e] eqn:Ep.
  - destruct tg as [[a|a es]|]; try reflexivity.
    cbn [target_entries].
    pose proof (utime_entries_can_set_times (os_path_basename p)
                  (timestamp dt, timestamp dt) es) as H.
    destruct (utime_entries _ _ es); now rewrite H.
  - reflexivity.
  - now rewrite (parse_filename_raises_value_error _ _ Ep).
Qed.

Lemma run_counts_closed (ps : list string) :
  forall (tg : option node) (c : nat * nat),
    run_counts ps tg c
    = if existsb raises ps then Raise ValueError
      else Ok (fst c + List.length (filter (updates (target_entries tg)) ps),
               snd c
               + List.length
                   (filter (fun p => negb (updates (target_entries tg) p)) ps))%nat.
Proof.
  induction ps as [|p ps IH]; intros tg [s f].
  - cbn. now rewrite !Nat.add_0_r.
  - cbn [run_counts existsb filter]. rewrite step_counts_updates.
    destruct (raises p); [reflexivity|]. cbn [orb].
    assert (forall q, updates (target_entries (step_target p tg)) q
                      = updates (target_entries tg) q) as Hsame.
    { intros q. apply updates_perms, step_target_perms. }
    assert (forall q, negb (updates (target_entries (step_target p tg)) q)
                      = negb (updates (target_entries tg) q)) as Hsame'.
    { intros q. now rewrite Hsame. }
    destruct (updates (target_entries tg) p); cbn [rbind negb];
      rewrite IH; destruct (existsb raises ps); try reflexivity;
      rewrite (filter_ext _ _ Hsame), (filter_ext _ _ Hsame');
      cbn [fst snd List.length]; f_equal; f_equal; lia.
Qed.

(** X6: what a run returns, in closed form.  If the name of a visited file
    makes [parse_filename] raise, the run raises [ValueError] and returns
    no tally.  Otherwise the success count is the number of visited files
    whose name holds a valid token and whose times may be set, as the
    directory was before the run, and the failure count is the number of the
    other visited files. *)
Theorem X6_tally_in_closed_form
    (directory : string) (verbose : Z) (w : world) :
  fst (process_directory directory verbose w)
  = if existsb raises (visited directory w) then Raise ValueError
    else Ok (List.length
               (filter (updates (entries_of w)) (visited directory w)),
             List.length
               (filter (fun p => negb (updates (entries_of w) p))
                  (visited directory w))).
Proof.
  destruct (process_directory_sem directory verbose w) as [-> _].
  apply run_counts_closed.
Qed.

(** ** The levels of verbosity *)

Lemma for_each_ext {X A} (body body' : X -> A -> M A) (xs : list X) :
  (forall x acc w, body x acc w = body' x acc w) ->
  forall acc w, for_each xs body acc w = for_each xs body' acc w.
Proof.
  intros Hext. induction xs as [|x xs IH]; intros acc w; [reflexivity|].
  cbn [for_each]. unfold bind. rewrite Hext.
  destruct (body' x acc w) as [[acc'|e] w']; [apply IH | reflexivity].
Qed.

Lemma process_file_same_guards (v v' : Z) (p : string) (c : nat * nat)
    (w : world) :
  (2 <=? v) = (2 <=? v') -> (1 <=? v) = (1 <=? v') ->
  process_file v p c w = process_file v' p c w.
Proof. intros H2 H1. unfold process_file. now rewrite H2, H1. Qed.

Lemma process_directory_same_guards (directory : string) (v v' : Z)
    (w : world) :
  (2 <=? v) = (2 <=? v') -> (1 <=? v) = (1 <=? v') ->
  process_directory directory v w = process_directory directory v' w.
Proof.
  intros H2 H1. unfold process_directory. apply for_each_ext.
  intros ext acc w0. apply for_each_ext.
  intros p c w1. now apply process_file_same_guards.
Qed.

(** X7: there are three levels of verbosity only.  Whatever it prints, a
    run at a level of 2 or more is the run at level 2, and a run at a level
    of 0 or less (a negative number too) is the run at level 0. *)
Theorem X7_three_levels_of_verbosity
    (directory : string) (verbose : Z) (w : world) :
  process_directory directory verbose w
  = process_directory directory
      (if 2 <=? verbose then 2 else if 1 <=? verbose then 1 else 0) w.
Proof.
  apply process_directory_same_guards;
    destruct (2 <=? verbose) eqn:E2; destruct (1 <=? verbose) eqn:E1;
    try reflexivity; lia.
Qed.

(** ** How much a run prints *)

Lemma process_file_lines (v : Z) (p : string) (s f : nat) (w : world) :
  match process_file v p (s, f) w with
  | (Ok (s', f'), w') =>
      ((s', f') = (S s, f) /\ unmatched p = false
       /\ List.length (stdout w')
          = (List.length (stdout w) + (if (2 <=? v)%Z then 2 else 0))%nat)
      \/ ((s', f') = (s, S f) /\ unmatched p = true
          /\ List.length (stdout w')
             = (List.length (stdout w) + (if (2 <=? v)%Z then 1 else 0)
                + (if (1 <=? v)%Z then 1 else 0))%nat)
      \/ ((s', f') = (s, S f) /\ unmatched p = false
          /\ List.length (stdout w')
             = (List.length (stdout w) + (if (2 <=? v)%Z then 1 else 0) + 1)%nat)
  | (Raise _, _) => True
  end.
Proof.
  unfold process_file, unmatched, update_file_modification_time.
  unfold bind, lift, when, print, ret.
  cbv zeta. destruct w as [tg out].
  destruct (parse_filename (os_path_basename p)) as [[dt|]|e].
  - destruct (2 <=? v); cbn [target stdout]; rewrite os_utime_entries;
      cbn [target stdout];
      (destruct tg as [[a|a es]|];
       [ | destruct (utime_entries _ _ es) | ]);
      cbn [target stdout]; rewrite ?length_app; cbn [List.length];
      try (left; repeat split; lia);
      right; right; repeat split; lia.
  - destruct (2 <=? v), (1 <=? v); cbn [target stdout];
      rewrite ?length_app; cbn [List.length];
      right; left; repeat split; lia.
  - now destruct (2 <=? v).
Qed.

Lemma for_each_lines (v : Z) (ps : list string) :
  forall (s f : nat) (w : world),
    match for_each ps (process_file v) (s, f) w with
    | (Ok (s', f'), w') =>
        exists refused : nat,
          f' = (f + List.length (filter unmatched ps) + refused)%nat
          /\ List.length (stdout w')
             = (List.length (stdout w)
                + (if (2 <=? v)%Z then 2 * List.length ps
                   else if (1 <=? v)%Z then f' - f
                   else refused))%nat
    | (Raise _, _) => True
    end.
Proof.
  induction ps as [|p ps IH]; intros s f w.
  - cbn. exists 0%nat. split; [lia|].
    destruct (2 <=? v), (1 <=? v); lia.
  - cbn [for_each]. unfold bind.
    pose proof (process_file_lines v p s f w) as Hstep.
    destruct (process_file v p (s, f) w) as [[[s1 f1]|e] w1]; [|exact I].
    specialize (IH s1 f1 w1).
    destruct (for_each ps (process_file v) (s1, f1) w1)
      as [[[s' f']|e] w']; [|exact I].
    destruct IH as (r & Hf & Hlen). cbn [filter List.length].
    assert ((2 <=? v) = true -> (1 <=? v) = true) as Hmono by lia.
    destruct Hstep as [(Hc & Hu & Hl) | [(Hc & Hu & Hl) | (Hc & Hu & Hl)]];
      inversion Hc; subst; rewrite Hu; cbn [List.length].
    + exists r. split; [lia|].
      destruct (2 <=? v), (1 <=? v); try specialize (Hmono eq_refl);
        try discriminate; lia.
    + exists r. split; [lia|].
      destruct (2 <=? v), (1 <=? v); try specialize (Hmono eq_refl);
        try discriminate; lia.
    + exists (S r). split; [lia|].
      destruct (2 <=? v), (1 <=? v); try specialize (Hmono eq_refl);
        try discriminate; lia.
Qed.

(** X8: how many lines a run that returns a tally has printed.  At level 2
    and above, two for every visited file; at level 1, one for every file
    counted as a failure; at level 0 and below, one for every file whose
    update failed, that is, the failure count less the number of files whose
    name matches no pattern. *)
Theorem X8_lines_printed_at_each_level
    (directory : string) (verbose : Z) (w : world) :
  match process_directory directory verbose w with
  | (Ok (s, f), w') =>
      (List.length (filter unmatched (visited directory w)) <= f)%nat
      /\ List.length (stdout w')
         = (List.length (stdout w)
            + (if (2 <=? verbose)%Z then 2 * List.length (visited directory w)
               else if (1 <=? verbose)%Z then f
               else f - List.length (filter unmatched (visited directory w))))%nat
  | (Raise _, _) => True
  end.
Proof.
  rewrite process_directory_visited.
  pose proof (for_each_lines verbose (visited directory w) 0%nat 0%nat w) as H.
  destruct (for_each (visited directory w) (process_file verbose)
              (0%nat, 0%nat) w) as [[[s f]|e] w']; [|exact I].
  destruct H as (r & Hf & Hlen). split; [lia|].
  rewrite Hlen. destruct (2 <=? verbose), (1 <=? verbose); lia.
Qed.

(** ** main around process_directory *)




Lemma after_output_stdout (w : world) :
  w = after_output (stdout w) (mk_world (target w) []).
Proof.
  destruct w as [tg out]. unfold after_output. cbn. now rewrite app_nil_r.
Qed.



(** ** What a run leaves behind *)

Lemma stamped_or_same_refl (es : list (string * node)) :
  Forall2 stamped_or_same es es.
Proof.
  induction es as [|e es IH]; constructor; [|assumption].
  split; [reflexivity | now left].
Qed.

Lemma stamp_stamped_or_same (name : string) (dt : datetime)
    (es0 es : list (string * node)) :
  parse_filename name = Ok (Some dt) ->
  Forall2 stamped_or_same es0 es ->
  Forall2 stamped_or_same es0 (stamp name (timestamp dt, timestamp dt) es).
Proof.
  intros Hparse H. induction H as [|[n0 nd0] [n nd] es0 es [Hn Hnd] Hrest IH];
    [constructor|].
  cbn [fst snd] in Hn, Hnd. subst n. rewrite stamp_cons.
  destruct (String.eqb_spec n0 name) as [-> | Hne].
  - destruct (utime_error (node_attrs nd)).
    + constructor; [now split | assumption].
    + constructor; [|assumption]. split; [reflexivity|].
      right. exists dt. split; [assumption|]. cbn [fst snd].
      destruct Hnd as [-> | (dt' & Hparse' & ->)]; [reflexivity|].
      cbn [fst] in Hparse'. rewrite Hparse in Hparse'.
      inversion Hparse'; subst dt'. apply touch_touch.
  - constructor; [now split | assumption].
Qed.

Lemma step_entries_stamped_or_same (p : string)
    (es0 es : list (string * node)) :
  Forall2 stamped_or_same es0 es ->
  Forall2 stamped_or_same es0 (step_entries p es).
Proof.
  intros H. unfold step_entries.
  destruct (parse_filename (os_path_basename p)) as [[dt|]|e] eqn:Ep;
    try assumption.
  now apply stamp_stamped_or_same.
Qed.

Lemma run_target_stamped_or_same (ps : list string) :
  forall (es0 : list (string * node)) (tg : option node),
    Forall2 stamped_or_same es0 (target_entries tg) ->
    Forall2 stamped_or_same es0 (target_entries (run_target ps tg)).
Proof.
  induction ps as [|p ps IH]; intros es0 tg H; [assumption|].
  cbn [run_target]. destruct (parse_filename (os_path_basename p));
    [|assumption].
  apply IH. destruct tg as [[a0|a0 es]|]; try assumption.
  cbn [step_target target_entries] in *.
  now apply step_entries_stamped_or_same.
Qed.

(** X10: after a run, whatever its outcome, the directory has the entries
    it had, in their order, and each of them is either exactly as it was or
    has both its times set to the timestamp that its own name spells: no
    file gets a time that comes from another file's name, and a file is
    never left with only one of its two times changed. *)
Theorem X10_every_changed_file_carries_the_time_of_its_own_name
    (directory : string) (verbose : Z) (w : world) :
  Forall2 stamped_or_same
    (entries_of w)
    (entries_of (snd (process_directory directory verbose w))).
Proof.
  unfold entries_of.
  destruct (process_directory_sem directory verbose w) as [_ ->].
  apply run_target_stamped_or_same, stamped_or_same_refl.
Qed.

Section Absorbed.
Variables (A X : Type) (f : A -> X -> A).
Hypothesis f_idempotent : forall a x, f (f a x) x = f a x.
Hypothesis f_commute : forall a x y, f (f a x) y = f (f a y) x.

End Absorbed.








(** ** The order of the times written *)

Lemma days_before_year_succ (y : Z) :
  days_before_year (y + 1)
  = days_before_year y + 365 + (if is_leap y then 1 else 0).
Proof.
  unfold days_before_year, is_leap. cbv zeta.
  replace (y + 1 - 1) with y by lia.
  destruct (Z.eqb_spec (y mod 4) 0), (Z.eqb_spec (y mod 100) 0),
    (Z.eqb_spec (y mod 400) 0); cbn [andb orb negb];
    Z.div_mod_to_equations; lia.
Qed.

Lemma days_before_year_mono (y1 y2 : Z) :
  y1 <= y2 -> days_before_year y1 <= days_before_year y2.
Proof.
  intros H. unfold days_before_year. cbv zeta.
  Z.div_mod_to_equations. lia.
Qed.

Ltac month_cases m H :=
  assert (m = 1 \/ m = 2 \/ m = 3 \/ m = 4 \/ m = 5 \/ m = 6 \/ m = 7 \/
          m = 8 \/ m = 9 \/ m = 10 \/ m = 11 \/ m = 12) as H by lia;
  repeat (destruct H as [-> | H]); try subst m.

Lemma day_of_year_bounds (y m d : Z) :
  1 <= m <= 12 -> 1 <= d <= month_length y m ->
  1 <= days_before_month y m + d
       <= 365 + (if is_leap y then 1 else 0).
Proof.
  intros Hm Hd. unfold days_before_month, month_length in *.
  rewrite <- is_leap_leap_year in Hd.
  destruct (is_leap y); month_cases m Hc;
    cbv [DAYS_BEFORE_MONTH Z.ltb Z.compare Pos.compare Pos.compare_cont andb]
      in *; lia.
Qed.

Lemma day_of_year_mono (y m1 d1 m2 d2 : Z) :
  1 <= m1 <= 12 -> 1 <= d1 <= month_length y m1 ->
  1 <= m2 <= 12 -> 1 <= d2 <= month_length y m2 ->
  m1 < m2 \/ (m1 = m2 /\ d1 < d2) ->
  days_before_month y m1 + d1 < days_before_month y m2 + d2.
Proof.
  intros Hm1 Hd1 Hm2 Hd2 Hlt.
  unfold days_before_month, month_length in *.
  rewrite <- is_leap_leap_year in Hd1, Hd2.
  destruct (is_leap y); month_cases m1 Hc1; month_cases m2 Hc2;
    cbv [DAYS_BEFORE_MONTH Z.ltb Z.compare Pos.compare Pos.compare_cont andb]
      in *; lia.
Qed.

Lemma toordinal_mono (a b : datetime) :
  in_range a -> in_range b ->
  year a < year b
  \/ (year a = year b
      /\ (month a < month b \/ (month a = month b /\ day a < day b))) ->
  toordinal a < toordinal b.
Proof.
  intros [(Hya & Hma & Hda & _) _] [(Hyb & Hmb & Hdb & _) _] Hlt.
  unfold toordinal.
  destruct Hlt as [Hy | [Hy Hmd]].
  - pose proof (day_of_year_bounds _ _ _ Hma Hda) as Ha.
    pose proof (day_of_year_bounds _ _ _ Hmb Hdb) as Hb.
    pose proof (days_before_year_succ (year a)) as Hs.
    pose proof (days_before_year_mono (year a + 1) (year b) ltac:(lia)) as Hm.
    lia.
  - rewrite Hy in *.
    pose proof (day_of_year_mono _ _ _ _ _ Hma Hda Hmb Hdb Hmd). lia.
Qed.

Lemma timestamp_mono (a b : datetime) :
  in_range a -> in_range b -> earlier a b -> timestamp a < timestamp b.
Proof.
  intros Ha Hb Hlt. unfold timestamp.
  pose proof Ha as [(_ & _ & _ & Hha & Hmia & Hsa) Husa].
  pose proof Hb as [(_ & _ & _ & Hhb & Hmib & Hsb) Husb].
  destruct Hlt as [Hy | [Hy [Hm | [Hm [Hd | [Hd Hrest]]]]]].
  - pose proof (toordinal_mono a b Ha Hb (or_introl Hy)). lia.
  - pose proof (toordinal_mono a b Ha Hb
                  (or_intror (conj Hy (or_introl Hm)))). lia.
  - pose proof (toordinal_mono a b Ha Hb
                  (or_intror (conj Hy (or_intror (conj Hm Hd))))). lia.
  - assert (toordinal a = toordinal b) as ->
      by (unfold toordinal; now rewrite Hy, Hm, Hd).
    lia.
Qed.

Lemma earlier_trichotomy (a b : datetime) :
  earlier a b \/ a = b \/ earlier b a.
Proof.
  destruct a as [ya ma da ha mia sa usa []], b as [yb mb db hb mib sb usb []].
  unfold earlier. cbn.
  destruct (Z.lt_trichotomy ya yb) as [?|[->|?]];
    [left; lia | | right; right; lia].
  destruct (Z.lt_trichotomy ma mb) as [?|[->|?]];
    [left; lia | | right; right; lia].
  destruct (Z.lt_trichotomy da db) as [?|[->|?]];
    [left; lia | | right; right; lia].
  destruct (Z.lt_trichotomy ha hb) as [?|[->|?]];
    [left; lia | | right; right; lia].
  destruct (Z.lt_trichotomy mia mib) as [?|[->|?]];
    [left; lia | | right; right; lia].
  destruct (Z.lt_trichotomy sa sb) as [?|[->|?]];
    [left; lia | | right; right; lia].
  destruct (Z.lt_trichotomy usa usb) as [?|[->|?]];
    [left; lia | | right; right; lia].
  right. now left.
Qed.

Lemma parse_filename_in_range (filename : string) (dt : datetime) :
  parse_filename filename = Ok (Some dt) -> in_range dt.
Proof.
  intros H. destruct (filename_cases filename)
    as [[Hpxl Hlv] | (pre & tf & post & -> & Hwf & Hfirst)].
  - unfold parse_filename in H. rewrite Hpxl, Hlv in H. discriminate.
  - destruct (valid_fields_dec tf) as [Hv | Hbad].
    + rewrite parse_filename_valid_token in H by assumption.
      inversion H; subst dt. clear H.
      destruct tf as [Y Mo D h mi s ms | Y Mo D h mi s];
        cbn [well_formed valid_fields spelled] in *; split_andb;
        (split; [assumption|]); cbn [microsecond]; [|lia].
      pose proof (decimal_bounds 3 ms ltac:(assumption)) as Hms.
      change (10 ^ Z.of_nat 3) with 1000 in Hms. lia.
    + rewrite parse_filename_invalid_token in H by assumption.
      discriminate.
Qed.

(** X12: the times written keep the order of the dates in the names.  For
    two file names that parse, the epoch value of the one is less than that
    of the other exactly when its date and time is the earlier one, read
    field by field from the year to the microsecond; equal values come only
    from equal dates and times. *)
Theorem X12_written_times_keep_the_order_of_the_names
    (f1 f2 : string) (a b : datetime) :
  parse_filename f1 = Ok (Some a) ->
  parse_filename f2 = Ok (Some b) ->
  (timestamp a < timestamp b <-> earlier a b)
  /\ (timestamp a = timestamp b <-> a = b).
Proof.
  intros H1 H2.
  apply parse_filename_in_range in H1, H2.
  pose proof (timestamp_mono a b H1 H2) as Hab.
  pose proof (timestamp_mono b a H2 H1) as Hba.
  destruct (earlier_trichotomy a b) as [Hlt | [Heq | Hgt]].
  - specialize (Hab Hlt). split; split; intros H.
    + assumption.
    + assumption.
    + exfalso. lia.
    + subst b. reflexivity.
  - subst b. split; split; intros H.
    + exfalso. lia.
    + now apply Hab.
    + reflexivity.
    + reflexivity.
  - specialize (Hba Hgt). split; split; intros H.
    + exfalso. lia.
    + specialize (Hab H). lia.
    + exfalso. lia.
    + subst b. exfalso. lia.
Qed.

Lemma X12_written_times_keep_the_order_of_the_names_witness :
  (timestamp (mk_datetime 2023 12 31 23 59 59 999000 UTC)
   < timestamp (mk_datetime 2024 1 1 0 0 0 0 UTC)
   <-> earlier (mk_datetime 2023 12 31 23 59 59 999000 UTC)
         (mk_datetime 2024 1 1 0 0 0 0 UTC))
  /\ (timestamp (mk_datetime 2023 12 31 23 59 59 999000 UTC)
      = timestamp (mk_datetime 2024 1 1 0 0 0 0 UTC)
      <-> mk_datetime 2023 12 31 23 59 59 999000 UTC
          = mk_datetime 2024 1 1 0 0 0 0 UTC).
Proof.
  apply (X12_written_times_keep_the_order_of_the_names
           "PXL_20231231_235959999.jpg" "lv_0_20240101000000.mp4");
    reflexivity.
Defined.

(** ** The order of the directory *)







